(** * Superpowers installer: the symlink reconciliation engine of [install.py]

    The development is a shallow embedding of the engine part of
    [src/install.py] ([Item.check_status], [discover_items],
    [apply_changes], [_install_item], [_uninstall_item],
    [_toggle_node]) over an explicit model of the file system the script
    works on, followed by the properties of the engine.

    Layout: (1) paths, strings and exceptions, (2) the file-system model
    and the [pathlib]/[os] primitives the script calls, (3) the embedded
    program, on the model and, for the three methods that touch the
    disk, once more against the library calls as an interface, (4)
    sample file systems, (5)-(7) lemmas on the model, (8)-(12) lemmas on
    the program, (13) the properties, (14)-(17) further lemmas and
    properties.

    The file system is a tree of regular files, symbolic links and
    directories.  What the model leaves out: permissions and ownership
    (the one refusal of the platform that is kept is the creation of
    symbolic links), the limit on the length of a name, relative link
    targets and ".." components, and changes made by other processes
    while one call of the engine runs.  [Path.resolve] is the one of
    Python up to 3.12: a symlink loop raises [RuntimeError]; in the
    model links nested deeper than [MAXSYMLINKS] count as a loop, which
    [resolve()] itself does not do.  Where a property depends on what
    the platform may refuse or on how far links are followed, it is
    stated for the methods written against the interface, in which
    every call of the library may return or raise anything. *)

From Stdlib Require Import Ascii.
From Stdlib Require OrderedTypeEx.
From stdpp Require Import gmap strings list fin_maps sorting.

#[local] Set Warnings "-register-all,-clear-no-such-hyp".

(** ** 1. Paths, strings, exceptions *)

(** An absolute [pathlib.Path] is the list of its components below the
    root; [Path("/")] is [[]].  Paths are normalised: no ".", ".." or
    empty component, as [pathlib] keeps them for paths built with [/]
    from a resolved root. *)
Definition path : Type := list string.

(** [self / name] *)
Definition joinpath (p : path) (n : string) : path := p ++ [n].
Infix "/:" := joinpath (at level 40, left associativity).

(** [self.parent] and [self.name]; the parent of the root is the root. *)
Definition parent (p : path) : path := removelast p.
Definition basename (p : path) : string := List.last p "".

Fixpoint join_parts (p : path) : string :=
  match p with
  | [] => ""
  | c :: r => "/" +:+ c +:+ join_parts r
  end.

(** [str(path)] *)
Definition path_str (p : path) : string :=
  match p with
  | [] => "/"
  | _ => join_parts p
  end.

(** [name.rfind(".")], counted from offset [i]. *)
Fixpoint rfind_dot (s : string) (i : nat) : option nat :=
  match s with
  | EmptyString => None
  | String c r =>
      match rfind_dot r (S i) with
      | Some j => Some j
      | None => if Ascii.eqb c "."%char then Some i else None
      end
  end.

(** [PurePath.stem]: the name up to its last dot, unless that dot is the
    first or the last character. *)
Definition stem (nm : string) : string :=
  match rfind_dot nm 0 with
  | Some i =>
      if (0 <? i)%nat && (i <? String.length nm - 1)%nat
      then String.substring 0 i nm
      else nm
  | None => nm
  end.

(** [fnmatch(name, "*.md")] *)
Definition matches_md (nm : string) : bool :=
  let n := String.length nm in
  (3 <=? n)%nat && String.eqb (String.substring (n - 3) 3 nm) ".md".

(** Python compares [str] by code point and [Path] by the list of parts,
    both lexicographically. *)
Definition str_le (a b : string) : Prop := String.leb a b = true.

Fixpoint path_leb (p q : path) : bool :=
  match p, q with
  | [], _ => true
  | _ :: _, [] => false
  | a :: p', b :: q' =>
      match String.compare a b with
      | Lt => true
      | Eq => path_leb p' q'
      | Gt => false
      end
  end.

Definition path_le (p q : path) : Prop := path_leb p q = true.

#[global] Instance path_le_dec p q : Decision (path_le p q).
Proof. unfold path_le. apply _. Defined.

#[global] Instance str_le_dec a b : Decision (str_le a b).
Proof. unfold str_le. apply _. Defined.

(** [sorted(paths)] *)
Definition sorted (l : list path) : list path := merge_sort path_le l.

(** The exceptions the primitives raise; each carries the file name(s) of
    the failing call. *)
Inductive exn : Type :=
  | FileExistsError (p : path)
  | FileNotFoundError (p : path)
  | NotADirectoryError (p : path)
  | IsADirectoryError (p : path)
  | TooManyLinks (p : path)
  | RuntimeError (p : path)
  | SymlinkNotPermitted (target self : path).

(** [str(e)] *)
Definition exn_str (e : exn) : string :=
  match e with
  | FileExistsError p => "[Errno 17] File exists: '" +:+ path_str p +:+ "'"
  | FileNotFoundError p =>
      "[Errno 2] No such file or directory: '" +:+ path_str p +:+ "'"
  | NotADirectoryError p =>
      "[Errno 20] Not a directory: '" +:+ path_str p +:+ "'"
  | IsADirectoryError p =>
      "[Errno 21] Is a directory: '" +:+ path_str p +:+ "'"
  | TooManyLinks p =>
      "[Errno 40] Too many levels of symbolic links: '" +:+ path_str p +:+ "'"
  | RuntimeError p => "Symlink loop from '" +:+ path_str p +:+ "'"
  | SymlinkNotPermitted t s =>
      "[Errno 1] Operation not permitted: '" +:+ path_str t +:+ "' -> '"
      +:+ path_str s +:+ "'"
  end.

Inductive result (A : Type) : Type :=
  | Ok (a : A)
  | Raise (e : exn).
Arguments Ok {A} a.
Arguments Raise {A} e.

(** ** 2. The file system *)

(** A file-system object: a regular file with its contents, a symbolic
    link with its (absolute) target, or a directory with its entries. *)
Inductive node : Type :=
  | File (content : string)
  | Link (target : path)
  | Dir (entries : gmap string node).

(** The state the script runs against: the entries of the root directory,
    and whether the platform lets this process create symbolic links
    (Windows without the privilege and volumes without link support
    refuse [os.symlink] while [os.mkdir] works). *)
Record FS : Type := mkFS {
  root : gmap string node;
  symlinks_permitted : bool
}.

(** Literal walk from a node along [p]: no link is followed. *)
Fixpoint lookup_at (p : path) (on : option node) {struct p} : option node :=
  match p with
  | [] => on
  | c :: r =>
      match on with
      | Some (Dir es) => lookup_at r (es !! c)
      | _ => None
      end
  end.

(** Rewrite the object at [p] (create, replace or remove it); nothing
    happens when the directory that should hold it is not there. *)
Fixpoint alter_at (p : path) (f : option node → option node)
    (on : option node) {struct p} : option node :=
  match p with
  | [] => f on
  | c :: r =>
      match on with
      | Some (Dir es) => Some (Dir (partial_alter (alter_at r f) c es))
      | _ => on
      end
  end.

Definition fs_top (fs : FS) : option node := Some (Dir (root fs)).

Definition fs_lookup (fs : FS) (p : path) : option node :=
  lookup_at p (fs_top fs).

Definition fs_alter (p : path) (f : option node → option node) (fs : FS) : FS :=
  match p with
  | [] => fs
  | c :: r =>
      mkFS (partial_alter (alter_at r f) c (root fs)) (symlinks_permitted fs)
  end.

Definition fs_create (p : path) (n : node) (fs : FS) : FS :=
  fs_alter p (λ _, Some n) fs.

Definition fs_remove (p : path) (fs : FS) : FS :=
  fs_alter p (λ _, None) fs.

(** What [lstat] tells of an object: its type, and its contents unless
    it is a directory. *)
Inductive kind : Type :=
  | KFile (content : string)
  | KLink (target : path)
  | KDir.

Definition kind_of (n : node) : kind :=
  match n with
  | File c => KFile c
  | Link t => KLink t
  | Dir _ => KDir
  end.

(** *** Resolution of symbolic links *)

(** One component of [os.path.realpath] (non-strict): [acc] is the
    resolved prefix; a link is replaced by the resolution [rec] of its
    target, anything else, also a missing entry, is appended as it is. *)
Definition follow (fs : FS) (rec : path → option path)
    (acc : option path) (c : string) : option path :=
  match acc with
  | None => None
  | Some d =>
      match fs_lookup fs (d ++ [c]) with
      | Some (Link t) => rec t
      | _ => Some (d ++ [c])
      end
  end.

(** [fuel] bounds the nesting of links inside link targets; [None] is the
    symlink loop. *)
Fixpoint realpath_fuel (fuel : nat) (fs : FS) (p : path) : option path :=
  foldl (follow fs (match fuel with
                    | O => λ _, None
                    | S f => realpath_fuel f fs
                    end)) (Some []) p.

(** What [realpath_fuel fuel] does with the target of a link. *)
Definition link_rec (fuel : nat) (fs : FS) : path → option path :=
  match fuel with
  | O => λ _, None
  | S f => realpath_fuel f fs
  end.

Definition MAXSYMLINKS : nat := 40.

Definition realpath (fs : FS) (p : path) : option path :=
  realpath_fuel MAXSYMLINKS fs p.

(** [Path.resolve()] (non-strict): a loop raises [RuntimeError]. *)
Definition resolve (fs : FS) (p : path) : result path :=
  match realpath fs p with
  | Some q => Ok q
  | None => Raise (RuntimeError p)
  end.

(** [os.stat]: follows links. *)
Definition stat (fs : FS) (p : path) : option node :=
  match realpath fs p with
  | Some q => fs_lookup fs q
  | None => None
  end.

(** [os.lstat]: follows the links of the parent, not the last one. *)
Definition lstat (fs : FS) (p : path) : option node :=
  match p with
  | [] => fs_top fs
  | _ =>
      match realpath fs (parent p) with
      | Some d => fs_lookup fs (d ++ [basename p])
      | None => None
      end
  end.

(** [Path.exists()], [Path.is_dir()], [Path.is_symlink()] *)
Definition path_exists (fs : FS) (p : path) : bool :=
  match stat fs p with Some _ => true | None => false end.

Definition is_dir (fs : FS) (p : path) : bool :=
  match stat fs p with Some (Dir _) => true | _ => false end.

Definition is_symlink (fs : FS) (p : path) : bool :=
  match lstat fs p with Some (Link _) => true | _ => false end.

(** Why a literal walk stops: the errno of the failing system call. *)
Fixpoint walk_error (p : path) (n : node) (name : path) : exn :=
  match p with
  | [] => FileNotFoundError name
  | c :: r =>
      match n with
      | Dir es =>
          match es !! c with
          | Some m => walk_error r m name
          | None => FileNotFoundError name
          end
      | _ => NotADirectoryError name
      end
  end.

(** The real directory a system call on [name] works in, given the
    directory part [d] of its argument. *)
Definition opendir (fs : FS) (d : path) (name : path) : result path :=
  match realpath fs d with
  | None => Raise (TooManyLinks name)
  | Some q =>
      match fs_lookup fs q with
      | Some (Dir _) => Ok q
      | Some _ => Raise (NotADirectoryError name)
      | None => Raise (walk_error q (Dir (root fs)) name)
      end
  end.

(** *** Mutating primitives *)

(** [os.mkdir(p)] *)
Definition os_mkdir (fs : FS) (p : path) : result FS :=
  match p with
  | [] => Raise (FileExistsError p)
  | _ =>
      match opendir fs (parent p) p with
      | Raise e => Raise e
      | Ok d =>
          match fs_lookup fs (d ++ [basename p]) with
          | Some _ => Raise (FileExistsError p)
          | None => Ok (fs_create (d ++ [basename p]) (Dir ∅) fs)
          end
      end
  end.

(** What a call made of several system calls leaves behind: the state,
    and the exception when it raised. *)
Definition outcome : Type := FS * option exn.

(** [Path.mkdir(parents=False, exist_ok=exist_ok)] *)
Definition mkdir_leaf (exist_ok : bool) (fs : FS) (p : path) : outcome :=
  match os_mkdir fs p with
  | Ok fs' => (fs', None)
  | Raise (FileNotFoundError q) => (fs, Some (FileNotFoundError q))
  | Raise e => if exist_ok && is_dir fs p then (fs, None) else (fs, Some e)
  end.

(** [Path.mkdir(parents=True, exist_ok=True)], on the reversed path so
    that the recursive call on [self.parent] is structural. *)
Fixpoint mkdir_rev (fs : FS) (rp : list string) : outcome :=
  match os_mkdir fs (rev rp) with
  | Ok fs' => (fs', None)
  | Raise (FileNotFoundError q) =>
      match rp with
      | [] => (fs, Some (FileNotFoundError q))
      | _ :: rd =>
          match mkdir_rev fs rd with
          | (fs1, None) => mkdir_leaf true fs1 (rev rp)
          | (fs1, Some e) => (fs1, Some e)
          end
      end
  | Raise e => if is_dir fs (rev rp) then (fs, None) else (fs, Some e)
  end.

Definition mkdir (fs : FS) (p : path) : outcome := mkdir_rev fs (rev p).

(** [self.symlink_to(target)] *)
Definition symlink_to (fs : FS) (self target : path) : result FS :=
  match self with
  | [] => Raise (FileExistsError self)
  | _ =>
      match opendir fs (parent self) self with
      | Raise e => Raise e
      | Ok d =>
          match fs_lookup fs (d ++ [basename self]) with
          | Some _ => Raise (FileExistsError self)
          | None =>
              if symlinks_permitted fs
              then Ok (fs_create (d ++ [basename self]) (Link target) fs)
              else Raise (SymlinkNotPermitted target self)
          end
      end
  end.

(** [self.unlink()] *)
Definition unlink (fs : FS) (p : path) : result FS :=
  match p with
  | [] => Raise (IsADirectoryError p)
  | _ =>
      match opendir fs (parent p) p with
      | Raise e => Raise e
      | Ok d =>
          match fs_lookup fs (d ++ [basename p]) with
          | None => Raise (FileNotFoundError p)
          | Some (Dir _) => Raise (IsADirectoryError p)
          | Some _ => Ok (fs_remove (d ++ [basename p]) fs)
          end
      end
  end.

(** [os.listdir(d)]: the names in a directory, in the order the platform
    yields them. *)
Definition listdir (fs : FS) (d : path) : result (list string) :=
  match opendir fs d d with
  | Raise e => Raise e
  | Ok q =>
      match fs_lookup fs q with
      | Some (Dir es) => Ok (fst <$> map_to_list es)
      | _ => Raise (NotADirectoryError d)
      end
  end.

(** [d.iterdir()], consumed whole. *)
Definition iterdir (fs : FS) (d : path) : result (list path) :=
  match listdir fs d with
  | Ok names => Ok (joinpath d <$> names)
  | Raise e => Raise e
  end.

(** [d.glob("*.md")], consumed whole: nothing when [d] is not a
    directory. *)
Definition glob_md (fs : FS) (d : path) : list path :=
  if is_dir fs d then
    match listdir fs d with
    | Ok names => joinpath d <$> filter (λ n, matches_md n = true) names
    | Raise _ => []
    end
  else [].

(** ** 3. The program *)

Inductive ItemStatus : Type :=
  | NOT_INSTALLED
  | INSTALLED
  | CONFLICT.

#[global] Instance ItemStatus_eq_dec : EqDecision ItemStatus.
Proof. solve_decision. Defined.

(** [@dataclass class Item] *)
Record Item : Type := mkItem {
  name : string;
  category : string;
  source_path : path;
  dest_path : path;
  status : ItemStatus;
  selected : bool;
  error_message : option string
}.

(** Assignments to the three mutable fields. *)
Definition set_status (s : ItemStatus) (e : option string) (self : Item) : Item :=
  mkItem (name self) (category self) (source_path self) (dest_path self)
         s (selected self) e.

Definition set_selected (b : bool) (self : Item) : Item :=
  mkItem (name self) (category self) (source_path self) (dest_path self)
         (status self) b (error_message self).

(** [Item.check_status] *)
Definition check_status (fs : FS) (self : Item) : Item :=
  if negb (path_exists fs (dest_path self))
     && negb (is_symlink fs (dest_path self)) then
    set_status NOT_INSTALLED None self
  else if is_symlink fs (dest_path self) then
    match resolve fs (dest_path self) with
    | Raise e => set_status CONFLICT (Some (exn_str e)) self
    | Ok target =>
        match resolve fs (source_path self) with
        | Raise e => set_status CONFLICT (Some (exn_str e)) self
        | Ok expected =>
            if decide (target = expected) then
              set_status INSTALLED None self
            else
              set_status CONFLICT
                (Some ("Symlink points to " +:+ path_str target
                       +:+ ", expected " +:+ path_str expected)) self
        end
    end
  else
    set_status CONFLICT
      (Some ("Path exists but is not a symlink: "
             +:+ path_str (dest_path self))) self.

(** [@dataclass class Category] *)
Record Category : Type := mkCategory {
  cat_name : string;
  items : list Item
}.

Definition all_installed (c : Category) : bool :=
  forallb (λ item, bool_decide (status item = INSTALLED)) (items c).

Definition all_selected (c : Category) : bool :=
  forallb selected (items c).

(** The body of the three loops of [discover_items]: build the item,
    classify it, preselect it when it is installed. *)
Definition discovered (fs : FS) (nm cat : string) (src dst : path) : Item :=
  let item := mkItem nm cat src dst NOT_INSTALLED false None in
  let item := check_status fs item in
  set_selected (bool_decide (status item = INSTALLED)) item.

(** The [commands] and [agents] blocks: the same text up to the name of
    the category. *)
Definition discover_md (fs : FS) (source_dir claude_dir : path) (cat : string)
    : list Category :=
  let cat_src := source_dir /: cat in
  let cat_dest := claude_dir /: cat in
  if path_exists fs cat_src then
    let its :=
      (λ f, discovered fs (stem (basename f)) cat f (cat_dest /: basename f))
        <$> sorted (glob_md fs cat_src) in
    match its with
    | [] => []
    | _ => [mkCategory cat its]
    end
  else [].

(** The [skills] block; [iterdir] raises when [skills] is not a
    directory. *)
Definition discover_skills (fs : FS) (source_dir claude_dir : path)
    : result (list Category) :=
  let skills_src := source_dir /: "skills" in
  let skills_dest := claude_dir /: "skills" in
  if path_exists fs skills_src then
    match iterdir fs skills_src with
    | Raise e => Raise e
    | Ok ds =>
        let its :=
          (λ d, discovered fs (basename d) "skills" d
                  (skills_dest /: basename d))
            <$> filter (λ d, is_dir fs d && path_exists fs (d /: "SKILL.md")
                             = true)
                  (sorted ds) in
        match its with
        | [] => Ok []
        | _ => Ok [mkCategory "skills" its]
        end
    end
  else Ok [].

(** [discover_items] *)
Definition discover_items (fs : FS) (source_dir claude_dir : path)
    : result (list Category) :=
  let categories := discover_md fs source_dir claude_dir "commands" in
  match discover_skills fs source_dir claude_dir with
  | Raise e => Raise e
  | Ok skills =>
      Ok (categories ++ skills
          ++ discover_md fs source_dir claude_dir "agents")
  end.

Inductive Action : Type := install | uninstall.

(** [@dataclass class OperationResult]; [item] is the item as it was when
    the operation ran. *)
Record OperationResult : Type := mkResult {
  item : Item;
  action : Action;
  success : bool;
  message : string
}.

(** [SuperpowersInstaller._install_item] *)
Definition _install_item (fs : FS) (it : Item) (dest_dir : path)
    : FS * OperationResult :=
  match mkdir fs dest_dir with
  | (fs1, Some e) => (fs1, mkResult it install false (exn_str e))
  | (fs1, None) =>
      if path_exists fs1 (dest_path it) || is_symlink fs1 (dest_path it) then
        (fs1, mkResult it install false
                ("Destination already exists: " +:+ path_str (dest_path it)))
      else
        match symlink_to fs1 (dest_path it) (source_path it) with
        | Raise e => (fs1, mkResult it install false (exn_str e))
        | Ok fs2 =>
            (fs2, mkResult it install true
                    ("Created symlink: " +:+ path_str (dest_path it)
                     +:+ " -> " +:+ path_str (source_path it)))
        end
  end.

(** [SuperpowersInstaller._uninstall_item] *)
Definition _uninstall_item (fs : FS) (it : Item) : FS * OperationResult :=
  if negb (is_symlink fs (dest_path it)) then
    (fs, mkResult it uninstall false
           ("Not a symlink: " +:+ path_str (dest_path it)))
  else
    match resolve fs (dest_path it) with
    | Raise e => (fs, mkResult it uninstall false (exn_str e))
    | Ok target =>
        match resolve fs (source_path it) with
        | Raise e => (fs, mkResult it uninstall false (exn_str e))
        | Ok expected =>
            if decide (target ≠ expected) then
              (fs, mkResult it uninstall false
                     ("Symlink points elsewhere: " +:+ path_str target))
            else
              match unlink fs (dest_path it) with
              | Raise e => (fs, mkResult it uninstall false (exn_str e))
              | Ok fs' =>
                  (fs', mkResult it uninstall true
                          ("Removed symlink: " +:+ path_str (dest_path it)))
              end
        end
    end.

(** [f"{item.error_message}"] of an [Optional[str]] *)
Definition opt_str (o : option string) : string :=
  match o with
  | Some s => s
  | None => "None"
  end.

(** The [if]/[elif] chain of [apply_changes] for one item: the new file
    system and the results appended. *)
Definition apply_item (fs : FS) (dest_dir : path) (it : Item)
    : FS * list OperationResult :=
  if selected it && negb (bool_decide (status it = INSTALLED)) then
    let '(fs', r) := _install_item fs it dest_dir in (fs', [r])
  else if negb (selected it) && bool_decide (status it = INSTALLED) then
    let '(fs', r) := _uninstall_item fs it in (fs', [r])
  else if selected it && bool_decide (status it = CONFLICT) then
    (fs, [mkResult it install false
            ("Cannot install: " +:+ opt_str (error_message it))])
  else if negb (selected it) && bool_decide (status it = CONFLICT) then
    (fs, [mkResult it uninstall false
            ("Cannot uninstall: " +:+ opt_str (error_message it))])
  else (fs, []).

(** The destination directory of a category; [None] is the [continue]. *)
Definition dest_dir_of (claude_dir : path) (c : Category) : option path :=
  if decide (cat_name c = "commands") then Some (claude_dir /: "commands")
  else if decide (cat_name c = "skills") then Some (claude_dir /: "skills")
  else if decide (cat_name c = "agents") then Some (claude_dir /: "agents")
  else None.

(** The inner loop, [for item in category.items]. *)
Definition apply_items (dest_dir : path)
    (st : FS * list OperationResult) (its : list Item)
    : FS * list OperationResult :=
  foldl (λ '(fs, results) it,
           let '(fs', rs) := apply_item fs dest_dir it in (fs', results ++ rs))
        st its.

(** The outer loop, [for category in self.categories]. *)
Definition apply_categories (claude_dir : path)
    (st : FS * list OperationResult) (categories : list Category)
    : FS * list OperationResult :=
  foldl (λ st c,
           match dest_dir_of claude_dir c with
           | Some dest_dir => apply_items dest_dir st (items c)
           | None => st
           end)
        st categories.

(** The refresh after the batch: every item is classified again and its
    selection reset to its status. *)
Definition refresh_item (fs : FS) (it : Item) : Item :=
  let it := check_status fs it in
  set_selected (bool_decide (status it = INSTALLED)) it.

Definition refresh (fs : FS) (categories : list Category) : list Category :=
  (λ c, mkCategory (cat_name c) (refresh_item fs <$> items c)) <$> categories.

(** [SuperpowersInstaller.apply_changes]: the file system after the
    batch, the refreshed categories and the results shown. *)
Definition apply_changes (fs : FS) (claude_dir : path)
    (categories : list Category)
    : FS * list Category * list OperationResult :=
  let '(fs', results) := apply_categories claude_dir (fs, []) categories in
  (fs', refresh fs' categories, results).

(** *** The library behind the script *)

(** The definitions above run on the model of the file system, where
    only the creation of a link can be refused.  The script itself knows
    the platform through [pathlib] alone, and every call it makes may
    raise: [exists()] and [is_symlink()] re-raise the errors of [stat]
    other than a missing path or a loop (a name that is too long, a
    directory that cannot be searched), outside the [try] of
    [check_status] and inside the ones of [_install_item] and
    [_uninstall_item].  The three methods are written once more against
    the calls as they are, for any world [W] and any exceptions [E]. *)
Inductive call (E A : Type) : Type :=
  | Returns (a : A)
  | Raises (e : E).
Arguments Returns {E A} a.
Arguments Raises {E A} e.

(** What [check_status] asks of the library. *)
Class Queries (W E : Type) : Type := {
  (** [str(e)] *)
  lib_str : E → string;
  (** [Path.exists()] *)
  lib_exists : W → path → call E bool;
  (** [Path.is_symlink()] *)
  lib_is_symlink : W → path → call E bool;
  (** [Path.resolve()] *)
  lib_resolve : W → path → call E path
}.

(** What the installer asks besides.  [mkdir] is made of several system
    calls and may leave directories behind when it raises; a link is
    made, and removed, by one system call, which changes nothing when it
    fails. *)
Class Library (W E : Type) : Type := {
  lib_queries :: Queries W E;
  (** [Path.mkdir(parents=True, exist_ok=True)] *)
  lib_mkdir : W → path → W * option E;
  (** [self.symlink_to(target)] *)
  lib_symlink_to : W → path → path → call E W;
  (** [self.unlink()] *)
  lib_unlink : W → path → call E W
}.

(** The body of the [try] of [check_status]. *)
Definition classify_link {W E} {Q : Queries W E} (w : W) (self : Item) : Item :=
  match lib_resolve w (dest_path self) with
  | Raises e => set_status CONFLICT (Some (lib_str e)) self
  | Returns target =>
      match lib_resolve w (source_path self) with
      | Raises e => set_status CONFLICT (Some (lib_str e)) self
      | Returns expected =>
          if decide (target = expected) then
            set_status INSTALLED None self
          else
            set_status CONFLICT
              (Some ("Symlink points to " +:+ path_str target
                     +:+ ", expected " +:+ path_str expected)) self
      end
  end.

(** [Item.check_status]: the two tests of the first line and the test
    of the [elif] are outside the [try]; [and] calls [is_symlink()] only
    when [exists()] returned false. *)
Definition check_status_on {W E} {Q : Queries W E} (w : W) (self : Item)
    : call E Item :=
  match lib_exists w (dest_path self) with
  | Raises e => Raises e
  | Returns ex =>
      match (if ex then Returns true
             else lib_is_symlink w (dest_path self)) with
      | Raises e => Raises e
      | Returns false => Returns (set_status NOT_INSTALLED None self)
      | Returns true =>
          match lib_is_symlink w (dest_path self) with
          | Raises e => Raises e
          | Returns true => Returns (classify_link w self)
          | Returns false =>
              Returns (set_status CONFLICT
                         (Some ("Path exists but is not a symlink: "
                                +:+ path_str (dest_path self))) self)
          end
      end
  end.

(** [SuperpowersInstaller._install_item]: everything is inside the
    [try]; [or] calls [is_symlink()] only when [exists()] returned
    false. *)
Definition _install_item_on {W E} {L : Library W E} (w : W) (it : Item)
    (dest_dir : path) : W * OperationResult :=
  match lib_mkdir w dest_dir with
  | (w1, Some e) => (w1, mkResult it install false (lib_str e))
  | (w1, None) =>
      match (match lib_exists w1 (dest_path it) with
             | Returns false => lib_is_symlink w1 (dest_path it)
             | r => r
             end) with
      | Raises e => (w1, mkResult it install false (lib_str e))
      | Returns true =>
          (w1, mkResult it install false
                 ("Destination already exists: " +:+ path_str (dest_path it)))
      | Returns false =>
          match lib_symlink_to w1 (dest_path it) (source_path it) with
          | Raises e => (w1, mkResult it install false (lib_str e))
          | Returns w2 =>
              (w2, mkResult it install true
                     ("Created symlink: " +:+ path_str (dest_path it)
                      +:+ " -> " +:+ path_str (source_path it)))
          end
      end
  end.

(** [SuperpowersInstaller._uninstall_item] *)
Definition _uninstall_item_on {W E} {L : Library W E} (w : W) (it : Item)
    : W * OperationResult :=
  match lib_is_symlink w (dest_path it) with
  | Raises e => (w, mkResult it uninstall false (lib_str e))
  | Returns false =>
      (w, mkResult it uninstall false
            ("Not a symlink: " +:+ path_str (dest_path it)))
  | Returns true =>
      match lib_resolve w (dest_path it) with
      | Raises e => (w, mkResult it uninstall false (lib_str e))
      | Returns target =>
          match lib_resolve w (source_path it) with
          | Raises e => (w, mkResult it uninstall false (lib_str e))
          | Returns expected =>
              if decide (target ≠ expected) then
                (w, mkResult it uninstall false
                      ("Symlink points elsewhere: " +:+ path_str target))
              else
                match lib_unlink w (dest_path it) with
                | Raises e => (w, mkResult it uninstall false (lib_str e))
                | Returns w' =>
                    (w', mkResult it uninstall true
                           ("Removed symlink: "
                            +:+ path_str (dest_path it)))
                end
          end
      end
  end.

(** The model of the file system as a library: its queries never
    raise. *)
Definition of_result {A} (r : result A) : call exn A :=
  match r with
  | Ok a => Returns a
  | Raise e => Raises e
  end.

Definition model_queries : Queries FS exn := {|
  lib_str := exn_str;
  lib_exists fs p := Returns (path_exists fs p);
  lib_is_symlink fs p := Returns (is_symlink fs p);
  lib_resolve fs p := of_result (resolve fs p)
|}.

Definition model : Library FS exn := {|
  lib_queries := model_queries;
  lib_mkdir := mkdir;
  lib_symlink_to fs self target := of_result (symlink_to fs self target);
  lib_unlink fs p := of_result (unlink fs p)
|}.

(** The queries on Linux, as far as the names of the path itself go: no
    name in a directory has more than [NAME_MAX] bytes, and [stat] and
    [lstat] fail with [ENAMETOOLONG] when the walk along the path comes
    to a longer one; [exists()] and [is_symlink()] re-raise that error,
    [resolve()] (non-strict) does not.  The names inside the targets of
    the links on the way are not looked at. *)
Definition NAME_MAX : nat := 255.

Inductive os_exn : Type :=
  | NameTooLong (p : path)
  | Modelled (e : exn).

Definition os_exn_str (e : os_exn) : string :=
  match e with
  | NameTooLong p =>
      "[Errno 36] File name too long: '" +:+ path_str p +:+ "'"
  | Modelled e => exn_str e
  end.

(** The walk from the directory [d] along [rest] comes to a name that
    is too long: every directory before it is there. *)
Fixpoint long_name_at (fs : FS) (d rest : path) : bool :=
  match rest with
  | [] => false
  | c :: r =>
      is_dir fs d
      && ((NAME_MAX <? String.length c)%nat || long_name_at fs (d ++ [c]) r)
  end.

Definition name_too_long (fs : FS) (p : path) : bool := long_name_at fs [] p.

Definition linux_queries : Queries FS os_exn := {|
  lib_str := os_exn_str;
  lib_exists fs p :=
    if name_too_long fs p then Raises (NameTooLong p)
    else Returns (path_exists fs p);
  lib_is_symlink fs p :=
    if name_too_long fs p then Raises (NameTooLong p)
    else Returns (is_symlink fs p);
  lib_resolve fs p :=
    match resolve fs p with
    | Ok q => Returns q
    | Raise e => Raises (Modelled e)
    end
|}.

(** *** The selection in the interface *)

(** What a node of the tree carries: nothing (the root), a category of
    [self.categories], or an item of one of them.  The nodes hold the
    objects themselves, so a toggle is seen in [self.categories]: a
    category is referred to by its position, an item by the position of
    its category and its own. *)
Inductive NodeData : Type :=
  | no_data
  | category_node (i : nat)
  | item_node (i j : nat).

(** The category branch of [_toggle_node]. *)
Definition toggle_category (c : Category) : Category :=
  let new_state := negb (all_selected c) in
  mkCategory (cat_name c) (set_selected new_state <$> items c).

(** The item branch of [_toggle_node]. *)
Definition toggle_item (it : Item) : Item :=
  set_selected (negb (selected it)) it.

(** [SuperpowersInstaller._toggle_node], as the change it makes to
    [self.categories]. *)
Definition _toggle_node (categories : list Category) (node : NodeData)
    : list Category :=
  match node with
  | no_data => categories
  | category_node i => alter toggle_category i categories
  | item_node i j =>
      alter (λ c, mkCategory (cat_name c) (alter toggle_item j (items c)))
            i categories
  end.

(** *** Vocabulary of the properties *)

(** Something is at [p]: the negation of the first test of
    [check_status], the test of [_install_item]. *)
Definition present (fs : FS) (p : path) : Prop :=
  path_exists fs p = true ∨ is_symlink fs p = true.

(** [self.dest_path] is a symbolic link whose resolved path is the
    resolved [self.source_path]. *)
Definition installed_condition (fs : FS) (it : Item) : Prop :=
  is_symlink fs (dest_path it) = true
  ∧ ∃ q, resolve fs (dest_path it) = Ok q ∧ resolve fs (source_path it) = Ok q.

(** A symbolic link that leads to nothing. *)
Definition dangling (fs : FS) (p : path) : Prop :=
  is_symlink fs p = true ∧ path_exists fs p = false.

(** The status of the item already is what the selection asks for. *)
Definition satisfied (it : Item) : Prop :=
  (status it = INSTALLED ∧ selected it = true)
  ∨ (status it = NOT_INSTALLED ∧ selected it = false).

(** The item lies in the destination directory of its category, as
    [discover_items] places it. *)
Definition placed (claude_dir : path) (c : Category) (it : Item) : Prop :=
  ∃ dest_dir n,
    dest_dir_of claude_dir c = Some dest_dir ∧ dest_path it = dest_dir /: n.

(** Nothing that was there is gone or replaced: every object keeps its
    type and its contents (a directory may have gained entries), and
    what led to an existing object still leads to it. *)
Definition preserved (fs fs' : FS) : Prop :=
  (∀ y, is_Some (fs_lookup fs y) →
        kind_of <$> fs_lookup fs' y = kind_of <$> fs_lookup fs y)
  ∧ (∀ p q, realpath fs p = Some q → is_Some (fs_lookup fs q) →
            realpath fs' p = Some q).

(** Every object that is not a symbolic link is still there with its
    type and its contents. *)
Definition non_links_kept (fs fs' : FS) : Prop :=
  ∀ y n, fs_lookup fs y = Some n → (∀ t, n ≠ Link t) →
         kind_of <$> fs_lookup fs' y = Some (kind_of n).

(** The category is one of the three [apply_changes] handles. *)
Definition known (c : Category) : Prop :=
  cat_name c = "commands" ∨ cat_name c = "skills" ∨ cat_name c = "agents".

(** The item is as the refresh on [fs] leaves it: classified on [fs] and
    selected exactly when installed. *)
Definition settled (fs : FS) (it : Item) : Prop := refresh_item fs it = it.

(** The refusal [apply_changes] emits for an unselected Conflict item. *)
Definition refusal (it : Item) : OperationResult :=
  mkResult it uninstall false
    ("Cannot uninstall: " +:+ opt_str (error_message it)).

#[global] Instance satisfied_dec (it : Item) : Decision (satisfied it).
Proof. unfold satisfied. apply _. Defined.

#[global] Instance known_dec (c : Category) : Decision (known c).
Proof. unfold known. apply _. Defined.

(** ** 4. Sample file systems *)

Module Sample.

Definition src : path := ["opt"; "superpowers"].
Definition claude : path := ["home"; "u"; ".claude"].

(** The source tree: two commands, one skill, no agents. *)
Definition source_tree : node :=
  Dir {[ "commands" := Dir {[ "foo.md" := File "foo";
                              "foo-bar.md" := File "foo-bar" ]};
         "skills" := Dir {[ "bar" := Dir {[ "SKILL.md" := File "bar" ]};
                            "notes" := Dir ∅ ]} ]}.

Definition with_claude (claude_entries : gmap string node) (permitted : bool)
    : FS :=
  mkFS {[ "opt" := Dir {[ "superpowers" := source_tree ]};
          "home" := Dir {[ "u" := Dir {[ ".claude" := Dir claude_entries ]} ]} ]}
       permitted.

(** Nothing installed, no category directory yet. *)
Definition fresh : FS := with_claude ∅ true.

(** The same on a platform that refuses to create symbolic links. *)
Definition fresh_nolinks : FS := with_claude ∅ false.

(** [commands/foo.md] is a regular file in the destination. *)
Definition blocked : FS :=
  with_claude {[ "commands" := Dir {[ "foo.md" := File "mine" ]} ]} true.

(** [commands/foo.md] is installed. *)
Definition linked : FS :=
  with_claude
    {[ "commands" := Dir {[ "foo.md" := Link (src /: "commands" /: "foo.md") ]} ]}
    true.

(** [commands/foo.md] links to a file that is not there, while the
    source of [foo] is. *)
Definition stale : FS :=
  with_claude
    {[ "commands" := Dir {[ "foo.md" := Link (src /: "commands" /: "old.md") ]} ]}
    true.

(** [commands/gone.md] links to a source file that is no longer there. *)
Definition orphaned : FS :=
  with_claude
    {[ "commands" := Dir {[ "gone.md" := Link (src /: "commands" /: "gone.md") ]} ]}
    true.

(** [commands/foo.md] links to itself. *)
Definition looping : FS :=
  with_claude
    {[ "commands" := Dir {[ "foo.md" := Link (claude /: "commands" /: "foo.md") ]} ]}
    true.

Definition foo (st : ItemStatus) (sel : bool) (e : option string) : Item :=
  mkItem "foo" "commands" (src /: "commands" /: "foo.md")
         (claude /: "commands" /: "foo.md") st sel e.

Definition gone (st : ItemStatus) (sel : bool) (e : option string) : Item :=
  mkItem "gone" "commands" (src /: "commands" /: "gone.md")
         (claude /: "commands" /: "gone.md") st sel e.

(** The home directory without [.claude]. *)
Definition bare : FS :=
  mkFS {[ "opt" := Dir {[ "superpowers" := source_tree ]};
          "home" := Dir {[ "u" := Dir ∅ ]} ]}
       true.

(** A command and an agent of the same name; the command is installed
    and [agents] is a link to [commands], so that the destination of
    the agent is the link of the command. *)
Definition crossed : FS :=
  mkFS {[ "opt" :=
            Dir {[ "superpowers" :=
                     Dir {[ "commands" := Dir {[ "foo.md" := File "foo" ]};
                            "agents" := Dir {[ "foo.md" := File "agent" ]} ]} ]};
          "home" :=
            Dir {[ "u" :=
                     Dir {[ ".claude" :=
                              Dir {[ "commands" :=
                                       Dir {[ "foo.md" :=
                                                Link (src /: "commands"
                                                      /: "foo.md") ]};
                                     "agents" :=
                                       Link (claude /: "commands") ]} ]} ]} ]}
       true.

Definition agent_foo (st : ItemStatus) (sel : bool) (e : option string)
    : Item :=
  mkItem "foo" "agents" (src /: "agents" /: "foo.md")
         (claude /: "agents" /: "foo.md") st sel e.

(** A command whose file name has 259 bytes. *)
Definition long_md : string :=
  String.string_of_list_ascii (replicate 256 "a"%char) +:+ ".md".

Definition long (st : ItemStatus) (sel : bool) (e : option string) : Item :=
  mkItem (String.string_of_list_ascii (replicate 256 "a"%char)) "commands"
         (src /: "commands" /: long_md) (claude /: "commands" /: long_md)
         st sel e.

End Sample.

(** ** 5. The file-system model: lookups and updates *)

Section Tree.

Implicit Types (p q x y : path) (on : option node) (f : option node → option node).

Lemma lookup_at_None p : lookup_at p None = None.
Proof. by destruct p. Qed.

Lemma lookup_at_app p q on :
  lookup_at (p ++ q) on = lookup_at q (lookup_at p on).
Proof.
  revert on. induction p as [|c r IH]; intros on; simpl; [done|].
  destruct on as [[| |es]|]; rewrite ?lookup_at_None; auto.
Qed.

Lemma lookup_at_prefix p q on :
  is_Some (lookup_at (p ++ q) on) → is_Some (lookup_at p on).
Proof.
  rewrite lookup_at_app. destruct (lookup_at p on); [eauto|].
  rewrite lookup_at_None. by intros [? ?].
Qed.

Lemma lookup_at_snoc_dir p c on :
  is_Some (lookup_at (p ++ [c]) on) → ∃ es, lookup_at p on = Some (Dir es).
Proof.
  rewrite lookup_at_app. simpl.
  destruct (lookup_at p on) as [[| |es]|]; try by intros [? ?].
  eauto.
Qed.

(** An update at [x] is invisible from every path that does not pass
    through [x], up to the entries of the directories above [x]. *)
Lemma alter_at_kind x f y on :
  ¬ x `prefix_of` y →
  kind_of <$> lookup_at y (alter_at x f on) = kind_of <$> lookup_at y on.
Proof.
  revert y on. induction x as [|c r IH]; intros y on Hpre.
  { destruct Hpre. apply prefix_nil. }
  simpl. destruct on as [[| |es]|]; try done.
  destruct y as [|c' r']; simpl; [done|].
  destruct (decide (c = c')) as [->|Hne].
  - rewrite lookup_partial_alter_eq. apply IH.
    intros Hp. apply Hpre. by apply prefix_cons.
  - by rewrite lookup_partial_alter_ne.
Qed.

(** Removing [x] removes what is below it. *)
Lemma alter_at_below x y on :
  x `prefix_of` y → lookup_at y (alter_at x (λ _, None) on) = None.
Proof.
  intros [k ->]. revert on. induction x as [|c r IH]; intros on; simpl.
  { apply lookup_at_None. }
  destruct on as [[| |es]|]; try done.
  rewrite lookup_partial_alter_eq. apply IH.
Qed.

(** An update in an existing directory takes effect. *)
Lemma alter_at_here d c f on es :
  lookup_at d on = Some (Dir es) →
  lookup_at (d ++ [c]) (alter_at (d ++ [c]) f on) = f (es !! c).
Proof.
  revert on. induction d as [|a r IH]; intros on; simpl.
  - intros ->. by rewrite lookup_partial_alter_eq.
  - destruct on as [[| |es']|]; try done.
    intros H. rewrite lookup_partial_alter_eq. by apply IH.
Qed.

Lemma top_fs_alter x f fs :
  x ≠ [] → fs_top (fs_alter x f fs) = alter_at x f (fs_top fs).
Proof. by destruct x. Qed.

Lemma fs_lookup_nil fs : fs_lookup fs [] = fs_top fs.
Proof. done. Qed.

Lemma fs_lookup_prefix fs p q :
  is_Some (fs_lookup fs (p ++ q)) → is_Some (fs_lookup fs p).
Proof. apply lookup_at_prefix. Qed.

Lemma fs_lookup_snoc_dir fs p c :
  is_Some (fs_lookup fs (p ++ [c])) → ∃ es, fs_lookup fs p = Some (Dir es).
Proof. apply lookup_at_snoc_dir. Qed.

(** A path that is there does not pass through one that is not. *)
Lemma absent_not_prefix fs x y :
  fs_lookup fs x = None → is_Some (fs_lookup fs y) → ¬ x `prefix_of` y.
Proof.
  intros Hx Hy [k ->]. apply fs_lookup_prefix in Hy.
  rewrite Hx in Hy. by destruct Hy.
Qed.

Lemma fs_alter_kind x f fs y :
  x ≠ [] → ¬ x `prefix_of` y →
  kind_of <$> fs_lookup (fs_alter x f fs) y = kind_of <$> fs_lookup fs y.
Proof.
  intros Hx Hpre. unfold fs_lookup. rewrite top_fs_alter by done.
  by apply alter_at_kind.
Qed.

Lemma fs_alter_link x f fs y t :
  x ≠ [] → ¬ x `prefix_of` y →
  fs_lookup (fs_alter x f fs) y = Some (Link t) ↔ fs_lookup fs y = Some (Link t).
Proof.
  intros Hx Hpre. pose proof (fs_alter_kind x f fs y Hx Hpre) as Hk.
  destruct (fs_lookup (fs_alter x f fs) y) as [[| |]|],
           (fs_lookup fs y) as [[| |]|]; simpl in Hk; naive_solver.
Qed.

Lemma fs_alter_is_Some x f fs y :
  x ≠ [] → ¬ x `prefix_of` y →
  is_Some (fs_lookup (fs_alter x f fs) y) ↔ is_Some (fs_lookup fs y).
Proof.
  intros Hx Hpre. pose proof (fs_alter_kind x f fs y Hx Hpre) as Hk.
  rewrite <-!not_eq_None_Some.
  destruct (fs_lookup (fs_alter x f fs) y), (fs_lookup fs y);
    simpl in Hk; naive_solver.
Qed.

Lemma fs_alter_dir x f fs y :
  x ≠ [] → ¬ x `prefix_of` y →
  (∃ es, fs_lookup (fs_alter x f fs) y = Some (Dir es))
  ↔ (∃ es, fs_lookup fs y = Some (Dir es)).
Proof.
  intros Hx Hpre. pose proof (fs_alter_kind x f fs y Hx Hpre) as Hk.
  destruct (fs_lookup (fs_alter x f fs) y) as [[| |]|],
           (fs_lookup fs y) as [[| |]|]; simpl in Hk; naive_solver.
Qed.

Lemma fs_create_here fs d c n es :
  fs_lookup fs d = Some (Dir es) →
  fs_lookup (fs_create (d ++ [c]) n fs) (d ++ [c]) = Some n.
Proof.
  intros Hd. unfold fs_lookup, fs_create.
  rewrite top_fs_alter by (by destruct d).
  by rewrite (alter_at_here _ _ _ _ es).
Qed.

Lemma fs_remove_below fs x y :
  x ≠ [] → x `prefix_of` y → fs_lookup (fs_remove x fs) y = None.
Proof.
  intros Hx Hpre. unfold fs_lookup, fs_remove.
  rewrite top_fs_alter by done. by apply alter_at_below.
Qed.

End Tree.

(** ** 6. The file-system model: resolution *)

Section Resolution.

Implicit Types (p q x y d : path) (fs : FS).

Lemma realpath_fuel_unfold fuel fs p :
  realpath_fuel fuel fs p = foldl (follow fs (link_rec fuel fs)) (Some []) p.
Proof. by destruct fuel. Qed.

Lemma realpath_fuel_snoc fuel fs d c :
  realpath_fuel fuel fs (d ++ [c])
  = follow fs (link_rec fuel fs) (realpath_fuel fuel fs d) c.
Proof. by rewrite !realpath_fuel_unfold, foldl_snoc. Qed.

(** Creating, replacing or removing something at a place where nothing
    was leaves every resolution that ends at an existing object as it
    is. *)
Lemma follow_alter_absent x f fs (rec rec' : path → option path) :
  x ≠ [] → fs_lookup fs x = None →
  (∀ t q, rec t = Some q → is_Some (fs_lookup fs q) → rec' t = Some q) →
  ∀ p q, foldl (follow fs rec) (Some []) p = Some q →
         is_Some (fs_lookup fs q) →
         foldl (follow (fs_alter x f fs) rec') (Some []) p = Some q.
Proof.
  intros Hx Habs Hrec p. induction p as [|c d IH] using rev_ind; intros q.
  { simpl. by intros [= <-]. }
  rewrite !foldl_snoc.
  destruct (foldl (follow fs rec) (Some []) d) as [d'|] eqn:Hd; [|done].
  simpl. intros Hq Hex.
  assert (is_Some (fs_lookup fs (d' ++ [c])) →
          foldl (follow (fs_alter x f fs) rec') (Some []) d = Some d') as Hpre.
  { intros Hs. apply IH; [done|]. by apply fs_lookup_prefix in Hs. }
  assert (is_Some (fs_lookup fs (d' ++ [c])) →
          ∀ t, fs_lookup (fs_alter x f fs) (d' ++ [c]) = Some (Link t)
               ↔ fs_lookup fs (d' ++ [c]) = Some (Link t)) as Hlink.
  { intros Hs t. apply fs_alter_link; [done|]. by eapply absent_not_prefix. }
  destruct (fs_lookup fs (d' ++ [c])) as [n|] eqn:Hl.
  - rewrite Hpre by eauto. simpl.
    destruct n as [s|t|es].
    + injection Hq as <-.
      destruct (fs_lookup (fs_alter x f fs) (d' ++ [c])) as [[|t'|]|] eqn:Hl';
        try done.
      by pose proof (proj1 (Hlink ltac:(eauto) t') eq_refl).
    + assert (fs_lookup (fs_alter x f fs) (d' ++ [c]) = Some (Link t)) as ->
        by (apply Hlink; eauto).
      by apply Hrec.
    + injection Hq as <-.
      destruct (fs_lookup (fs_alter x f fs) (d' ++ [c])) as [[|t'|]|] eqn:Hl';
        try done.
      by pose proof (proj1 (Hlink ltac:(eauto) t') eq_refl).
  - injection Hq as <-. rewrite Hl in Hex. by destruct Hex.
Qed.

Lemma realpath_fuel_alter_absent x f fs fuel :
  x ≠ [] → fs_lookup fs x = None →
  ∀ p q, realpath_fuel fuel fs p = Some q → is_Some (fs_lookup fs q) →
         realpath_fuel fuel (fs_alter x f fs) p = Some q.
Proof.
  intros Hx Habs. induction fuel as [|n IH]; intros p q;
    rewrite !realpath_fuel_unfold; apply follow_alter_absent; try done.
Qed.

Lemma realpath_alter_absent x f fs p q :
  x ≠ [] → fs_lookup fs x = None →
  realpath fs p = Some q → is_Some (fs_lookup fs q) →
  realpath (fs_alter x f fs) p = Some q.
Proof. intros. by apply realpath_fuel_alter_absent. Qed.

Lemma realpath_create x n fs p q :
  x ≠ [] → fs_lookup fs x = None →
  realpath fs p = Some q → is_Some (fs_lookup fs q) →
  realpath (fs_create x n fs) p = Some q.
Proof. intros. by apply realpath_fuel_alter_absent. Qed.

(** After [x] is removed, a resolution either is what it was or runs
    into the hole. *)
Lemma follow_remove x fs (rec rec' : path → option path) :
  x ≠ [] →
  (∀ t q, rec' t = Some q → rec t = Some q ∨ x `prefix_of` q) →
  ∀ p q, foldl (follow (fs_remove x fs) rec') (Some []) p = Some q →
         foldl (follow fs rec) (Some []) p = Some q ∨ x `prefix_of` q.
Proof.
  intros Hx Hrec p. induction p as [|c d IH] using rev_ind; intros q.
  { simpl. auto. }
  rewrite !foldl_snoc.
  destruct (foldl (follow (fs_remove x fs) rec') (Some []) d) as [d'|] eqn:Hd;
    [|done].
  simpl. intros Hq.
  destruct (decide (x `prefix_of` d' ++ [c])) as [Hpre|Hpre].
  { rewrite fs_remove_below in Hq by done. injection Hq as <-. auto. }
  destruct (IH d' eq_refl) as [Hd'|Hd'].
  2:{ destruct Hpre. by apply prefix_app_r. }
  rewrite Hd'. simpl.
  pose proof (λ H t, fs_alter_link x (λ _, None) fs (d' ++ [c]) t Hx H)
    as Hlink.
  fold (fs_remove x fs) in Hlink.
  destruct (fs_lookup (fs_remove x fs) (d' ++ [c])) as [[s|t|es]|] eqn:Hl.
  - injection Hq as <-. left.
    destruct (fs_lookup fs (d' ++ [c])) as [[|t'|]|] eqn:Hl'; try done.
    by pose proof (proj2 (Hlink Hpre t') eq_refl).
  - assert (fs_lookup fs (d' ++ [c]) = Some (Link t)) as ->
      by (by apply Hlink).
    by apply Hrec.
  - injection Hq as <-. left.
    destruct (fs_lookup fs (d' ++ [c])) as [[|t'|]|] eqn:Hl'; try done.
    by pose proof (proj2 (Hlink Hpre t') eq_refl).
  - injection Hq as <-. left.
    destruct (fs_lookup fs (d' ++ [c])) as [[|t'|]|] eqn:Hl'; try done.
    by pose proof (proj2 (Hlink Hpre t') eq_refl).
Qed.

Lemma realpath_fuel_remove x fs fuel :
  x ≠ [] →
  ∀ p q, realpath_fuel fuel (fs_remove x fs) p = Some q →
         realpath_fuel fuel fs p = Some q ∨ x `prefix_of` q.
Proof.
  intros Hx. induction fuel as [|n IH]; intros p q;
    rewrite !realpath_fuel_unfold; apply follow_remove; try done.
Qed.

Lemma realpath_remove x fs p q :
  x ≠ [] → realpath (fs_remove x fs) p = Some q →
  realpath fs p = Some q ∨ x `prefix_of` q.
Proof. intros Hx. by apply realpath_fuel_remove. Qed.

(** [stat] and [lstat] of a path with a last component. *)
Lemma realpath_snoc fs d c :
  realpath fs (d ++ [c])
  = follow fs (link_rec MAXSYMLINKS fs) (realpath fs d) c.
Proof. apply realpath_fuel_snoc. Qed.

Lemma realpath_nil fs : realpath fs [] = Some [].
Proof. done. Qed.

Lemma parent_snoc d c : parent (d ++ [c]) = d.
Proof. apply removelast_last. Qed.

Lemma basename_snoc d c : basename (d ++ [c]) = c.
Proof. apply last_last. Qed.

Lemma path_snoc p : p ≠ [] → p = parent p ++ [basename p].
Proof. apply app_removelast_last. Qed.

Lemma lstat_snoc fs d c :
  lstat fs (d ++ [c])
  = match realpath fs d with
    | Some d' => fs_lookup fs (d' ++ [c])
    | None => None
    end.
Proof.
  unfold lstat. rewrite parent_snoc, basename_snoc. by destruct d.
Qed.

(** The result of a resolution is never a link. *)
Lemma follow_not_link fs (rec : path → option path) :
  (∀ t q l, rec t = Some q → fs_lookup fs q ≠ Some (Link l)) →
  ∀ p q l, foldl (follow fs rec) (Some []) p = Some q →
           fs_lookup fs q ≠ Some (Link l).
Proof.
  intros Hrec p. induction p as [|c d IH] using rev_ind; intros q l.
  { simpl. by intros [= <-]. }
  rewrite foldl_snoc.
  destruct (foldl (follow fs rec) (Some []) d) as [d'|]; [|done].
  simpl. destruct (fs_lookup fs (d' ++ [c])) as [[s|t|es]|] eqn:Hl;
    try (intros [= <-]; by rewrite Hl).
  apply Hrec.
Qed.

Lemma realpath_fuel_not_link fs fuel p q l :
  realpath_fuel fuel fs p = Some q → fs_lookup fs q ≠ Some (Link l).
Proof.
  revert p q l. induction fuel as [|n IH]; intros p q l;
    rewrite realpath_fuel_unfold; apply follow_not_link; try done.
Qed.

Lemma realpath_not_link fs p q l :
  realpath fs p = Some q → fs_lookup fs q ≠ Some (Link l).
Proof. apply realpath_fuel_not_link. Qed.

End Resolution.

(** ** 7. The primitives *)

#[local] Arguments link_rec : simpl never.
#[local] Arguments realpath : simpl never.
#[local] Arguments realpath_fuel : simpl never.
#[local] Opaque realpath link_rec MAXSYMLINKS.
#[local] Arguments discovered : simpl never.

Section Primitives.

Implicit Types (p q x y d : path) (fs : FS).


(** [stat] in terms of [lstat]: what is there, or what the link there
    leads to. *)
Lemma stat_snoc fs d c :
  stat fs (d ++ [c])
  = match lstat fs (d ++ [c]) with
    | Some (Link t) =>
        match link_rec MAXSYMLINKS fs t with
        | Some q => fs_lookup fs q
        | None => None
        end
    | o => o
    end.
Proof.
  unfold stat. rewrite lstat_snoc, realpath_snoc.
  destruct (realpath fs d) as [d'|]; simpl; [|done].
  by destruct (fs_lookup fs (d' ++ [c])) as [[| |]|] eqn:Hl; rewrite ?Hl.
Qed.

(** The test of [check_status] and [_install_item]: something is at
    [p], whatever it is. *)
Lemma present_lstat fs p :
  path_exists fs p || is_symlink fs p = true ↔ is_Some (lstat fs p).
Proof.
  unfold path_exists, is_symlink.
  destruct (decide (p = [])) as [->|Hp].
  { simpl. split; eauto. }
  rewrite (path_snoc p Hp), stat_snoc.
  destruct (lstat fs _) as [[| |]|]; simpl; split; eauto; try done.
  all: try (by intros [? ?]).
  intros _. apply orb_true_r.
Qed.

Lemma absent_lstat fs p :
  path_exists fs p || is_symlink fs p = false ↔ lstat fs p = None.
Proof.
  rewrite <-not_true_iff_false, present_lstat, <-not_eq_None_Some.
  destruct (lstat fs p); split; try done.
  - intros H. by destruct H.
  - intros _ H. by apply H.
Qed.

Lemma is_symlink_lstat fs p :
  is_symlink fs p = true ↔ ∃ t, lstat fs p = Some (Link t).
Proof.
  unfold is_symlink.
  destruct (lstat fs p) as [[| |]|]; split; try done; eauto;
    by intros [? ?].
Qed.

Lemma is_dir_realpath fs d :
  is_dir fs d = true ↔
  ∃ d' es, realpath fs d = Some d' ∧ fs_lookup fs d' = Some (Dir es).
Proof.
  unfold is_dir, stat. destruct (realpath fs d) as [d'|].
  - destruct (fs_lookup fs d') as [[| |es]|] eqn:Hl; split; try done.
    + by intros (? & ? & [= <-] & ?); simplify_eq.
    + by intros (? & ? & [= <-] & ?); simplify_eq.
    + eauto.
    + by intros (? & ? & [= <-] & ?); simplify_eq.
  - split; [done|]. by intros (? & ? & ? & ?).
Qed.

(** Whatever is at [d / c], [d] leads to a directory. *)
Lemma lstat_parent_is_dir fs d c :
  is_Some (lstat fs (d ++ [c])) → is_dir fs d = true.
Proof.
  rewrite lstat_snoc. intros Hs. apply is_dir_realpath.
  destruct (realpath fs d) as [d'|]; [|by destruct Hs].
  apply fs_lookup_snoc_dir in Hs as [es Hes]. eauto.
Qed.

Lemma opendir_Ok fs d nm d' :
  opendir fs d nm = Ok d' ↔
  realpath fs d = Some d' ∧ ∃ es, fs_lookup fs d' = Some (Dir es).
Proof.
  unfold opendir. destruct (realpath fs d) as [q|].
  - destruct (fs_lookup fs q) as [[| |es]|] eqn:Hq; split; try done.
    + by intros ([= <-] & ? & ?); simplify_eq.
    + by intros ([= <-] & ? & ?); simplify_eq.
    + intros [= <-]. eauto.
    + by intros [[= <-] _].
    + by intros ([= <-] & ? & ?); simplify_eq.
  - split; [done|]. by intros [? _].
Qed.

Lemma is_dir_opendir fs d nm :
  is_dir fs d = true → ∃ d', opendir fs d nm = Ok d'.
Proof.
  intros (d' & es & ? & ?)%is_dir_realpath. exists d'.
  apply opendir_Ok. eauto.
Qed.

(** *** [os.mkdir] and [Path.mkdir] *)

Lemma os_mkdir_Ok fs p fs' :
  os_mkdir fs p = Ok fs' →
  ∃ d c d' es, p = d ++ [c] ∧ realpath fs d = Some d'
               ∧ fs_lookup fs d' = Some (Dir es)
               ∧ fs_lookup fs (d' ++ [c]) = None
               ∧ fs' = fs_create (d' ++ [c]) (Dir ∅) fs.
Proof.
  unfold os_mkdir. destruct (decide (p = [])) as [->|Hp]; [done|].
  destruct p as [|a r] eqn:E; [done|]. rewrite <-E in *. clear E a r.
  destruct (opendir fs (parent p) p) as [d'|] eqn:Hd; [|done].
  apply opendir_Ok in Hd as [Hr [es Hes]].
  destruct (fs_lookup fs (d' ++ [basename p])) eqn:Hl; [done|].
  intros [= <-]. exists (parent p), (basename p), d', es.
  split_and!; try done. by apply path_snoc.
Qed.

(** A directory [os.mkdir] made is empty. *)
Lemma os_mkdir_fresh fs p fs' :
  os_mkdir fs p = Ok fs' →
  ∃ q, realpath fs' p = Some q ∧ fs_lookup fs' q = Some (Dir ∅).
Proof.
  intros (d & c & d' & es & -> & Hr & Hes & Habs & ->)%os_mkdir_Ok.
  assert (d' ++ [c] ≠ []) as Hne by (by destruct d').
  assert (fs_lookup (fs_create (d' ++ [c]) (Dir ∅) fs) (d' ++ [c])
          = Some (Dir ∅)) as Hnew by (by eapply fs_create_here).
  exists (d' ++ [c]). split; [|exact Hnew].
  rewrite realpath_snoc.
  rewrite (realpath_create (d' ++ [c]) _ fs d d' Hne Habs Hr)
    by (rewrite Hes; eauto).
  unfold follow. by rewrite Hnew.
Qed.

Lemma os_mkdir_is_dir fs p fs' :
  os_mkdir fs p = Ok fs' → is_dir fs' p = true.
Proof.
  intros (q & Hq & Hempty)%os_mkdir_fresh. apply is_dir_realpath. eauto.
Qed.

Lemma os_mkdir_permitted fs p fs' :
  os_mkdir fs p = Ok fs' → symlinks_permitted fs' = symlinks_permitted fs.
Proof.
  intros (d & c & d' & es & -> & Hr & Hes & Habs & ->)%os_mkdir_Ok.
  by destruct d'.
Qed.

Lemma mkdir_leaf_is_dir fs p fs' :
  mkdir_leaf true fs p = (fs', None) → is_dir fs' p = true.
Proof.
  unfold mkdir_leaf. destruct (os_mkdir fs p) as [fs1|e] eqn:Hm.
  - intros [= <-]. by eapply os_mkdir_is_dir.
  - destruct e; try done; simpl;
      destruct (is_dir fs p) eqn:Hd; try done; by intros [= <-].
Qed.

Lemma mkdir_leaf_permitted fs p fs' o :
  mkdir_leaf true fs p = (fs', o) →
  symlinks_permitted fs' = symlinks_permitted fs.
Proof.
  unfold mkdir_leaf. destruct (os_mkdir fs p) as [fs1|e] eqn:Hm.
  - intros [= <- _]. by eapply os_mkdir_permitted.
  - destruct e; simpl; try (by intros [= <- _]);
      destruct (is_dir fs p); by intros [= <- _].
Qed.

Lemma mkdir_rev_permitted fs rp fs' o :
  mkdir_rev fs rp = (fs', o) →
  symlinks_permitted fs' = symlinks_permitted fs.
Proof.
  revert fs fs' o. induction rp as [|c rd IH]; intros fs fs' o; simpl.
  - by intros [= <- _].
  - destruct (os_mkdir fs (rev rd ++ [c])) as [fs1|e] eqn:Hm.
    + intros [= <- _]. by eapply os_mkdir_permitted.
    + destruct e; try (destruct (is_dir fs (rev rd ++ [c]));
                       by intros [= <- _]).
      destruct (mkdir_rev fs rd) as [fs1 [e|]] eqn:Hrec.
      * intros [= <- _]. by eapply IH.
      * intros Hleaf%mkdir_leaf_permitted. apply IH in Hrec. congruence.
Qed.

Lemma mkdir_rev_is_dir fs rp fs' :
  mkdir_rev fs rp = (fs', None) → is_dir fs' (rev rp) = true.
Proof.
  revert fs fs'. induction rp as [|c rd IH]; intros fs fs'; simpl.
  - intros [= <-]. done.
  - destruct (os_mkdir fs (rev rd ++ [c])) as [fs1|e] eqn:Hm.
    + intros [= <-]. by eapply os_mkdir_is_dir.
    + destruct e; try (destruct (is_dir fs (rev rd ++ [c])) eqn:Hd;
                       [by intros [= <-]|done]).
      destruct (mkdir_rev fs rd) as [fs1 [e|]] eqn:Hrec; [done|].
      apply mkdir_leaf_is_dir.
Qed.

(** [mkdir] delivers the directory and does not touch the platform
    switch. *)
Lemma mkdir_is_dir fs p fs' :
  mkdir fs p = (fs', None) → is_dir fs' p = true.
Proof.
  intros H%mkdir_rev_is_dir. by rewrite rev_involutive in H.
Qed.

Lemma mkdir_permitted fs p fs' o :
  mkdir fs p = (fs', o) → symlinks_permitted fs' = symlinks_permitted fs.
Proof. apply mkdir_rev_permitted. Qed.

Lemma os_mkdir_exists fs p :
  is_dir fs p = true → os_mkdir fs p = Raise (FileExistsError p).
Proof.
  intros Hd. destruct (decide (p = [])) as [->|Hp]; [done|].
  pose proof Hd as (q & es & Hr & Hq)%is_dir_realpath.
  unfold os_mkdir. destruct p as [|a r] eqn:E; [done|].
  rewrite <-E in *. clear E a r.
  assert (is_Some (lstat fs p)) as Hl.
  { apply present_lstat. unfold path_exists, is_dir in *.
    by destruct (stat fs p). }
  rewrite (path_snoc p Hp) in Hl.
  pose proof Hl as [d' Hop]%lstat_parent_is_dir%(is_dir_opendir _ _ p).
  rewrite Hop. apply opendir_Ok in Hop as [Hr' _].
  rewrite lstat_snoc, Hr' in Hl. by destruct Hl as [n ->].
Qed.

(** On an existing directory [mkdir(parents=True, exist_ok=True)] does
    nothing. *)
Lemma mkdir_noop fs p : is_dir fs p = true → mkdir fs p = (fs, None).
Proof.
  intros Hd. unfold mkdir.
  destruct (rev p) as [|c rd] eqn:E; simpl.
  - done.
  - assert (rev rd ++ [c] = p) as ->.
    { by rewrite <-(rev_involutive p), E. }
    by rewrite os_mkdir_exists, Hd.
Qed.

(** A directory can be made inside an empty one. *)
Lemma os_mkdir_in_fresh fs d c q :
  realpath fs d = Some q → fs_lookup fs q = Some (Dir ∅) →
  ∃ fs', os_mkdir fs (d ++ [c]) = Ok fs'.
Proof.
  intros Hr Hq. unfold os_mkdir.
  destruct (d ++ [c]) as [|a r] eqn:E; [by destruct d|].
  rewrite <-E in *. clear E a r.
  rewrite parent_snoc, basename_snoc.
  assert (opendir fs d (d ++ [c]) = Ok q) as -> by (apply opendir_Ok; eauto).
  assert (fs_lookup fs (q ++ [c]) = None) as ->; [|eauto].
  unfold fs_lookup in *. by rewrite lookup_at_app, Hq.
Qed.

Lemma os_mkdir_not_found fs d c q :
  os_mkdir fs (d ++ [c]) = Raise (FileNotFoundError q) → stat fs d = None.
Proof.
  unfold os_mkdir. destruct (d ++ [c]) as [|a r] eqn:E; [done|].
  rewrite <-E in *. clear E a r.
  rewrite parent_snoc, basename_snoc. unfold opendir, stat.
  destruct (realpath fs d) as [x|]; [|done].
  destruct (fs_lookup fs x) as [[| |es]|]; try done.
  by destruct (fs_lookup fs (x ++ [c])).
Qed.

(** When the directory was not there, [mkdir] delivers an empty one. *)
Lemma mkdir_rev_fresh fs rp fs' :
  stat fs (rev rp) = None → mkdir_rev fs rp = (fs', None) →
  ∃ q, realpath fs' (rev rp) = Some q ∧ fs_lookup fs' q = Some (Dir ∅).
Proof.
  revert fs fs'. induction rp as [|c rd IH]; intros fs fs' Hst; [done|].
  simpl in *.
  destruct (os_mkdir fs (rev rd ++ [c])) as [fs1|e] eqn:Hm.
  { intros [= <-]. by eapply os_mkdir_fresh. }
  assert (is_dir fs (rev rd ++ [c]) = false) as Hd
    by (unfold is_dir; by rewrite Hst).
  destruct e; rewrite ?Hd; try done.
  destruct (mkdir_rev fs rd) as [fs1 [e|]] eqn:Hrec; [done|].
  apply os_mkdir_not_found in Hm.
  destruct (IH _ _ Hm Hrec) as (q & Hq & Hempty).
  destruct (os_mkdir_in_fresh fs1 (rev rd) c q Hq Hempty) as [fs2 Hm2].
  unfold mkdir_leaf. rewrite Hm2. intros [= <-]. by eapply os_mkdir_fresh.
Qed.

(** [mkdir] is all or nothing: when it raises, nothing was made. *)
Lemma mkdir_rev_atomic fs rp fs' e :
  mkdir_rev fs rp = (fs', Some e) → fs' = fs.
Proof.
  revert fs fs' e. induction rp as [|c rd IH]; intros fs fs' e; simpl.
  { destruct (is_dir fs []); by intros [= <-]. }
  destruct (os_mkdir fs (rev rd ++ [c])) as [fs1|e0] eqn:Hm; [done|].
  destruct e0; try (destruct (is_dir fs (rev rd ++ [c])); by intros [= <-]).
  destruct (mkdir_rev fs rd) as [fs1 [e1|]] eqn:Hrec.
  { intros [= <- _]. by eapply IH. }
  apply os_mkdir_not_found in Hm.
  destruct (mkdir_rev_fresh _ _ _ Hm Hrec) as (q & Hq & Hempty).
  destruct (os_mkdir_in_fresh fs1 (rev rd) c q Hq Hempty) as [fs2 Hm2].
  unfold mkdir_leaf. by rewrite Hm2.
Qed.

Lemma mkdir_atomic fs p fs' e : mkdir fs p = (fs', Some e) → fs' = fs.
Proof. apply mkdir_rev_atomic. Qed.

(** *** [symlink_to] *)

Lemma symlink_to_Ok fs p t fs' :
  symlink_to fs p t = Ok fs' →
  ∃ d c d' es, p = d ++ [c] ∧ realpath fs d = Some d'
               ∧ fs_lookup fs d' = Some (Dir es)
               ∧ fs_lookup fs (d' ++ [c]) = None
               ∧ symlinks_permitted fs = true
               ∧ fs' = fs_create (d' ++ [c]) (Link t) fs.
Proof.
  unfold symlink_to. destruct (decide (p = [])) as [->|Hp]; [done|].
  destruct p as [|a r] eqn:E; [done|]. rewrite <-E in *. clear E a r.
  destruct (opendir fs (parent p) p) as [d'|] eqn:Hd; [|done].
  apply opendir_Ok in Hd as [Hr [es Hes]].
  destruct (fs_lookup fs (d' ++ [basename p])) eqn:Hl; [done|].
  destruct (symlinks_permitted fs) eqn:Hperm; [|done].
  intros [= <-]. exists (parent p), (basename p), d', es.
  split_and!; try done. by apply path_snoc.
Qed.

(** The new link is what [lstat] finds at [p] afterwards. *)
Lemma symlink_to_lstat fs p t fs' :
  symlink_to fs p t = Ok fs' → lstat fs' p = Some (Link t).
Proof.
  intros (d & c & d' & es & -> & Hr & Hes & Habs & _ & ->)%symlink_to_Ok.
  assert (d' ++ [c] ≠ []) as Hne by (by destruct d').
  rewrite lstat_snoc.
  rewrite (realpath_create (d' ++ [c]) _ fs d d' Hne Habs Hr)
    by (rewrite Hes; eauto).
  by eapply fs_create_here.
Qed.

(** It is created whenever the place is free, its directory is there
    and the platform permits. *)
Lemma symlink_to_succeeds fs d c t :
  is_dir fs d = true → lstat fs (d ++ [c]) = None →
  symlinks_permitted fs = true →
  ∃ fs', symlink_to fs (d ++ [c]) t = Ok fs'.
Proof.
  intros Hd Hl Hperm. unfold symlink_to.
  destruct (d ++ [c]) as [|a r] eqn:E; [by destruct d|].
  rewrite <-E in *. clear E a r.
  rewrite parent_snoc, basename_snoc.
  destruct (is_dir_opendir fs d (d ++ [c]) Hd) as [d' Hop]. rewrite Hop.
  apply opendir_Ok in Hop as [Hr _].
  rewrite lstat_snoc, Hr in Hl. rewrite Hl, Hperm. eauto.
Qed.

Lemma symlink_to_refused fs p t :
  symlinks_permitted fs = false → ∃ e, symlink_to fs p t = Raise e.
Proof.
  intros Hperm. unfold symlink_to. destruct p as [|a r]; [eauto|].
  destruct (opendir _ _ _); [|eauto].
  destruct (fs_lookup _ _); [eauto|]. rewrite Hperm. eauto.
Qed.

(** *** [unlink] *)

Lemma unlink_Ok fs p fs' :
  unlink fs p = Ok fs' →
  ∃ d c d' n, p = d ++ [c] ∧ realpath fs d = Some d'
              ∧ fs_lookup fs (d' ++ [c]) = Some n
              ∧ kind_of n ≠ KDir
              ∧ fs' = fs_remove (d' ++ [c]) fs.
Proof.
  unfold unlink. destruct (decide (p = [])) as [->|Hp]; [done|].
  destruct p as [|a r] eqn:E; [done|]. rewrite <-E in *. clear E a r.
  destruct (opendir fs (parent p) p) as [d'|] eqn:Hd; [|done].
  apply opendir_Ok in Hd as [Hr [es Hes]].
  destruct (fs_lookup fs (d' ++ [basename p])) as [n|] eqn:Hl; [|done].
  intros H. exists (parent p), (basename p), d', n.
  split_and!; try done; [by apply path_snoc| |];
    destruct n; try done; by injection H as <-.
Qed.

(** Nothing is at [p] once it is unlinked. *)
Lemma unlink_lstat fs p fs' : unlink fs p = Ok fs' → lstat fs' p = None.
Proof.
  intros (d & c & d' & n & -> & Hr & Hn & _ & ->)%unlink_Ok.
  assert (d' ++ [c] ≠ []) as Hne by (by destruct d').
  rewrite lstat_snoc.
  destruct (realpath (fs_remove (d' ++ [c]) fs) d) as [d''|] eqn:Hr'; [|done].
  destruct (realpath_remove _ _ _ _ Hne Hr') as [Hsame|Hpre].
  - assert (d'' = d') as -> by congruence.
    by apply fs_remove_below.
  - apply fs_remove_below; [done|]. by apply prefix_app_r.
Qed.

(** A symbolic link can always be unlinked. *)
Lemma unlink_symlink fs p :
  is_symlink fs p = true → ∃ fs', unlink fs p = Ok fs'.
Proof.
  intros [t Ht]%is_symlink_lstat.
  destruct (decide (p = [])) as [->|Hp]; [done|].
  rewrite (path_snoc p Hp) in Ht.
  assert (is_Some (lstat fs (parent p ++ [basename p]))) as Hs by eauto.
  apply lstat_parent_is_dir, (is_dir_opendir _ _ p) in Hs as [d' Hop].
  unfold unlink. destruct p as [|a r] eqn:E; [done|].
  rewrite <-E in *. clear E a r. rewrite Hop.
  apply opendir_Ok in Hop as [Hr _].
  rewrite lstat_snoc, Hr in Ht. rewrite Ht. eauto.
Qed.

End Primitives.

(** ** 8. The status classifier *)

Section Classifier.

Implicit Types (fs : FS) (it : Item).

Lemma present_is_Some fs p : present fs p ↔ is_Some (lstat fs p).
Proof.
  rewrite <-present_lstat. unfold present.
  destruct (path_exists fs p), (is_symlink fs p); simpl; intuition.
Qed.

Lemma not_present fs p :
  ¬ present fs p ↔ path_exists fs p = false ∧ is_symlink fs p = false.
Proof.
  unfold present.
  destruct (path_exists fs p), (is_symlink fs p); intuition congruence.
Qed.

Lemma installed_condition_present fs it :
  installed_condition fs it → present fs (dest_path it).
Proof. intros [H _]. by right. Qed.

(** The fields [check_status] leaves alone. *)
Lemma check_status_fields fs it :
  name (check_status fs it) = name it
  ∧ category (check_status fs it) = category it
  ∧ source_path (check_status fs it) = source_path it
  ∧ dest_path (check_status fs it) = dest_path it
  ∧ selected (check_status fs it) = selected it.
Proof.
  unfold check_status.
  repeat (case_match; simpl; try done).
Qed.

Lemma check_status_installed fs it :
  status (check_status fs it) = INSTALLED ↔ installed_condition fs it.
Proof.
  unfold check_status, installed_condition.
  destruct (path_exists fs (dest_path it)) eqn:He,
           (is_symlink fs (dest_path it)) eqn:Hs; simpl;
    try (split; [done|by intros [? _]]).
  - destruct (resolve fs (dest_path it)) as [t|e] eqn:Ht.
    + destruct (resolve fs (source_path it)) as [x|e] eqn:Hx.
      * destruct (decide (t = x)) as [->|Hne]; simpl.
        -- split; eauto.
        -- split; [done|]. intros (_ & q & [= ->] & [= ->]). done.
      * split; [done|]. by intros (_ & q & _ & ?).
    + split; [done|]. by intros (_ & q & ? & _).
  - destruct (resolve fs (dest_path it)) as [t|e] eqn:Ht.
    + destruct (resolve fs (source_path it)) as [x|e] eqn:Hx.
      * destruct (decide (t = x)) as [->|Hne]; simpl.
        -- split; eauto.
        -- split; [done|]. intros (_ & q & [= ->] & [= ->]). done.
      * split; [done|]. by intros (_ & q & _ & ?).
    + split; [done|]. by intros (_ & q & ? & _).
Qed.

Lemma check_status_not_installed fs it :
  status (check_status fs it) = NOT_INSTALLED ↔ ¬ present fs (dest_path it).
Proof.
  rewrite not_present. unfold check_status.
  destruct (path_exists fs (dest_path it)) eqn:He,
           (is_symlink fs (dest_path it)) eqn:Hs; simpl;
    repeat (case_match; simpl); split; try done; by intros [? ?].
Qed.


Lemma exists_resolve fs p :
  path_exists fs p = true →
  ∃ q, resolve fs p = Ok q ∧ is_Some (fs_lookup fs q).
Proof.
  unfold path_exists, stat, resolve.
  destruct (realpath fs p) as [q|]; [|done].
  destruct (fs_lookup fs q) eqn:Hq; [|done]. intros _. exists q.
  rewrite Hq. eauto.
Qed.

Lemma dangling_resolve fs p t :
  dangling fs p → resolve fs p = Ok t → fs_lookup fs t = None.
Proof.
  intros [_ He]. unfold path_exists, stat, resolve in *.
  destruct (realpath fs p) as [q|]; [|done]. intros [= <-].
  by destruct (fs_lookup fs q).
Qed.

(** An error of [resolve()] on the link is folded into Conflict. *)
Lemma check_status_resolve_error fs it e :
  is_symlink fs (dest_path it) = true →
  resolve fs (dest_path it) = Raise e →
  status (check_status fs it) = CONFLICT
  ∧ error_message (check_status fs it) = Some (exn_str e).
Proof.
  intros Hs He. unfold check_status. rewrite Hs, He. simpl.
  by rewrite andb_false_r.
Qed.

End Classifier.

(** ** 9. Install and uninstall *)

Section Operations.

Implicit Types (fs : FS) (it : Item) (dest_dir : path).

(** Every branch of [_uninstall_item], by what the two checks find. *)
Lemma uninstall_not_symlink fs it :
  is_symlink fs (dest_path it) = false →
  _uninstall_item fs it
  = (fs, mkResult it uninstall false
           ("Not a symlink: " +:+ path_str (dest_path it))).
Proof. intros H. unfold _uninstall_item. by rewrite H. Qed.

Lemma uninstall_elsewhere fs it target expected :
  is_symlink fs (dest_path it) = true →
  resolve fs (dest_path it) = Ok target →
  resolve fs (source_path it) = Ok expected →
  target ≠ expected →
  _uninstall_item fs it
  = (fs, mkResult it uninstall false
           ("Symlink points elsewhere: " +:+ path_str target)).
Proof.
  intros Hs Ht Hx Hne. unfold _uninstall_item. rewrite Hs, Ht, Hx. simpl.
  by destruct (decide (target ≠ expected)).
Qed.

Lemma uninstall_confirmed fs it :
  installed_condition fs it →
  ∃ fs', unlink fs (dest_path it) = Ok fs'
         ∧ lstat fs' (dest_path it) = None
         ∧ _uninstall_item fs it
           = (fs', mkResult it uninstall true
                     ("Removed symlink: " +:+ path_str (dest_path it))).
Proof.
  intros (Hs & q & Ht & Hx).
  destruct (unlink_symlink _ _ Hs) as [fs' Hu]. exists fs'.
  split_and!; [done|by eapply unlink_lstat|].
  unfold _uninstall_item. rewrite Hs, Ht, Hx, Hu. simpl.
  by destruct (decide (q ≠ q)).
Qed.

(** Either nothing happened and the result is a failure, or both
    checks passed on the state the link was removed from. *)
Lemma uninstall_cases fs it :
  (fst (_uninstall_item fs it) = fs
   ∧ success (snd (_uninstall_item fs it)) = false)
  ∨ (installed_condition fs it
     ∧ unlink fs (dest_path it) = Ok (fst (_uninstall_item fs it))
     ∧ success (snd (_uninstall_item fs it)) = true).
Proof.
  destruct (is_symlink fs (dest_path it)) eqn:Hs.
  2:{ left. by rewrite uninstall_not_symlink. }
  destruct (resolve fs (dest_path it)) as [t|e] eqn:Ht.
  2:{ left. unfold _uninstall_item. by rewrite Hs, Ht. }
  destruct (resolve fs (source_path it)) as [x|e] eqn:Hx.
  2:{ left. unfold _uninstall_item. by rewrite Hs, Ht, Hx. }
  destruct (decide (t = x)) as [->|Hne].
  - right. assert (installed_condition fs it) as Hi by (split; eauto).
    destruct (uninstall_confirmed _ _ Hi) as (fs' & Hu & _ & ->). done.
  - left. by erewrite uninstall_elsewhere.
Qed.

Lemma uninstall_item_of fs it :
  item (snd (_uninstall_item fs it)) = it
  ∧ action (snd (_uninstall_item fs it)) = uninstall.
Proof. unfold _uninstall_item. by repeat (case_match; simpl). Qed.

Lemma install_item_of fs it dest_dir :
  item (snd (_install_item fs it dest_dir)) = it
  ∧ action (snd (_install_item fs it dest_dir)) = install.
Proof. unfold _install_item. by repeat (case_match; simpl). Qed.

(** The branches of [_install_item]. *)
Lemma install_mkdir_fails fs it dest_dir fs1 e :
  mkdir fs dest_dir = (fs1, Some e) →
  fs1 = fs
  ∧ _install_item fs it dest_dir
    = (fs, mkResult it install false (exn_str e)).
Proof.
  intros H. pose proof (mkdir_atomic _ _ _ _ H) as ->.
  split; [done|]. unfold _install_item. by rewrite H.
Qed.

Lemma install_collision fs it dest_dir fs1 :
  mkdir fs dest_dir = (fs1, None) → present fs1 (dest_path it) →
  _install_item fs it dest_dir
  = (fs1, mkResult it install false
            ("Destination already exists: " +:+ path_str (dest_path it))).
Proof.
  intros Hm Hp. unfold _install_item. rewrite Hm.
  apply present_is_Some, present_lstat in Hp. by rewrite Hp.
Qed.

Lemma install_creates fs it dest_dir n fs1 :
  mkdir fs dest_dir = (fs1, None) → ¬ present fs1 (dest_path it) →
  dest_path it = dest_dir /: n → symlinks_permitted fs = true →
  ∃ fs2, symlink_to fs1 (dest_path it) (source_path it) = Ok fs2
         ∧ lstat fs2 (dest_path it) = Some (Link (source_path it))
         ∧ _install_item fs it dest_dir
           = (fs2, mkResult it install true
                     ("Created symlink: " +:+ path_str (dest_path it)
                      +:+ " -> " +:+ path_str (source_path it))).
Proof.
  intros Hm Hp Hpl Hperm. unfold joinpath in Hpl.
  assert (path_exists fs1 (dest_path it) || is_symlink fs1 (dest_path it)
          = false) as Hfree.
  { apply not_present in Hp as [-> ->]. done. }
  destruct (symlink_to_succeeds fs1 dest_dir n (source_path it))
    as [fs2 Hl].
  { by eapply mkdir_is_dir. }
  { apply absent_lstat. by rewrite <-Hpl. }
  { by rewrite (mkdir_permitted _ _ _ _ Hm). }
  rewrite <-Hpl in Hl.
  exists fs2. split_and!; [done|by eapply symlink_to_lstat|].
  unfold _install_item. by rewrite Hm, Hfree, Hl.
Qed.

(** Whatever the outcome, a directory [mkdir] made stays. *)
Lemma install_failed_state fs it dest_dir fs1 :
  mkdir fs dest_dir = (fs1, None) →
  success (snd (_install_item fs it dest_dir)) = false →
  fst (_install_item fs it dest_dir) = fs1.
Proof.
  intros Hm. unfold _install_item. rewrite Hm.
  by repeat (case_match; simpl).
Qed.

(** With something at a placed destination, [_install_item] changes
    nothing. *)
Lemma install_occupied fs it dest_dir n :
  dest_path it = dest_dir /: n → present fs (dest_path it) →
  _install_item fs it dest_dir
  = (fs, mkResult it install false
           ("Destination already exists: " +:+ path_str (dest_path it))).
Proof.
  intros Hpl Hp. apply install_collision; [|done].
  apply mkdir_noop. apply present_is_Some in Hp.
  unfold joinpath in Hpl. rewrite Hpl in Hp.
  by eapply lstat_parent_is_dir.
Qed.

End Operations.

(** ** 10. The batch *)

Section Batch.

Implicit Types (fs : FS) (it : Item) (dest_dir claude_dir : path)
  (c : Category) (r : OperationResult).

Lemma satisfied_branches it :
  satisfied it ↔
  selected it && negb (bool_decide (status it = INSTALLED)) = false
  ∧ negb (selected it) && bool_decide (status it = INSTALLED) = false
  ∧ selected it && bool_decide (status it = CONFLICT) = false
  ∧ negb (selected it) && bool_decide (status it = CONFLICT) = false.
Proof.
  unfold satisfied. destruct (selected it), (status it); simpl;
    intuition congruence.
Qed.

(** An item whose status is what its selection asks for: no call, no
    result. *)
Lemma apply_item_satisfied fs dest_dir it :
  satisfied it → apply_item fs dest_dir it = (fs, []).
Proof.
  intros (H1 & H2 & H3 & H4)%satisfied_branches.
  unfold apply_item. by rewrite H1, H2, H3, H4.
Qed.

(** The results of one item are about that item, and there are none
    when it is satisfied. *)
Lemma apply_item_results fs dest_dir it r :
  r ∈ snd (apply_item fs dest_dir it) → item r = it ∧ ¬ satisfied it.
Proof.
  intros Hr. split.
  - unfold apply_item in Hr.
    pose proof (install_item_of fs it dest_dir) as [Hi _].
    pose proof (uninstall_item_of fs it) as [Hu _].
    repeat case_match; simpl in *;
      apply list_elem_of_singleton in Hr || apply elem_of_nil in Hr;
      subst; simpl in *; try done.
  - intros Hs. rewrite (apply_item_satisfied _ _ _ Hs) in Hr.
    by apply elem_of_nil in Hr.
Qed.

(** A Conflict item with something at its placed destination: one
    failed result, nothing touched. *)
Lemma apply_item_conflict fs dest_dir n it :
  status it = CONFLICT → dest_path it = dest_dir /: n →
  present fs (dest_path it) →
  ∃ r, apply_item fs dest_dir it = (fs, [r])
       ∧ item r = it ∧ success r = false.
Proof.
  intros Hst Hpl Hp. unfold apply_item. rewrite Hst.
  destruct (selected it); simpl.
  - rewrite (install_occupied _ _ _ _ Hpl Hp). eauto.
  - eauto.
Qed.


(** The inner loop. *)
Lemma apply_items_cons dest_dir fs rs it its :
  apply_items dest_dir (fs, rs) (it :: its)
  = apply_items dest_dir
      (fst (apply_item fs dest_dir it),
       rs ++ snd (apply_item fs dest_dir it)) its.
Proof.
  unfold apply_items. simpl. by destruct (apply_item fs dest_dir it).
Qed.

Lemma apply_items_results dest_dir its :
  ∀ fs rs, ∃ new,
    snd (apply_items dest_dir (fs, rs) its) = rs ++ new
    ∧ Forall (λ r, item r ∈ its ∧ ¬ satisfied (item r)) new.
Proof.
  induction its as [|it its IH]; intros fs rs.
  { exists []. by rewrite app_nil_r. }
  rewrite apply_items_cons.
  destruct (IH (fst (apply_item fs dest_dir it))
               (rs ++ snd (apply_item fs dest_dir it))) as (new & -> & Hnew).
  exists (snd (apply_item fs dest_dir it) ++ new).
  split; [by rewrite app_assoc|].
  apply Forall_app. split.
  - apply Forall_forall. intros r [-> Hr]%apply_item_results.
    split; [left|done].
  - eapply Forall_impl; [done|]. intros r [? ?]. split; [by right|done].
Qed.

Lemma apply_items_satisfied dest_dir its :
  Forall satisfied its →
  ∀ st, apply_items dest_dir st its = st.
Proof.
  induction 1 as [|it its Hs _ IH]; intros [fs rs]; [done|].
  rewrite apply_items_cons, (apply_item_satisfied _ _ _ Hs). simpl.
  by rewrite app_nil_r, IH.
Qed.

Lemma apply_items_conflict dest_dir fs its :
  Forall (λ it, status it = CONFLICT ∧ present fs (dest_path it)
                ∧ ∃ n, dest_path it = dest_dir /: n) its →
  ∀ rs, ∃ new,
    apply_items dest_dir (fs, rs) its = (fs, rs ++ new)
    ∧ item <$> new = its ∧ Forall (λ r, success r = false) new.
Proof.
  induction 1 as [|it its (Hst & Hp & n & Hpl) _ IH]; intros rs.
  { exists []. by rewrite app_nil_r. }
  rewrite apply_items_cons.
  destruct (apply_item_conflict _ _ _ _ Hst Hpl Hp) as (r & -> & Hr & Hf).
  simpl. destruct (IH (rs ++ [r])) as (new & -> & Hnew & Hfail).
  exists (r :: new). split_and!.
  - by rewrite <-app_assoc.
  - rewrite fmap_cons. by rewrite Hr, Hnew.
  - by constructor.
Qed.

(** The outer loop. *)
Lemma apply_categories_cons claude_dir st c cs :
  apply_categories claude_dir st (c :: cs)
  = apply_categories claude_dir
      (match dest_dir_of claude_dir c with
       | Some dest_dir => apply_items dest_dir st (items c)
       | None => st
       end) cs.
Proof. done. Qed.

Lemma apply_categories_results claude_dir cs :
  ∀ fs rs, ∃ new,
    snd (apply_categories claude_dir (fs, rs) cs) = rs ++ new
    ∧ Forall (λ r, (∃ c, c ∈ cs ∧ item r ∈ items c)
                   ∧ ¬ satisfied (item r)) new.
Proof.
  induction cs as [|c cs IH]; intros fs rs.
  { exists []. by rewrite app_nil_r. }
  rewrite apply_categories_cons.
  destruct (dest_dir_of claude_dir c) as [d|].
  - destruct (apply_items_results d (items c) fs rs) as (new1 & H1 & Hn1).
    destruct (apply_items d (fs, rs) (items c)) as [fs1 rs1].
    simpl in H1. subst rs1.
    destruct (IH fs1 (rs ++ new1)) as (new2 & -> & Hn2).
    exists (new1 ++ new2). split; [by rewrite app_assoc|].
    apply Forall_app. split.
    + eapply Forall_impl; [done|]. intros r [? ?].
      split; [|done]. exists c. split; [left|done].
    + eapply Forall_impl; [done|]. intros r [(c' & ? & ?) ?].
      split; [|done]. exists c'. split; [by right|done].
  - destruct (IH fs rs) as (new & -> & Hn). exists new. split; [done|].
    eapply Forall_impl; [done|]. intros r [(c' & ? & ?) ?].
    split; [|done]. exists c'. split; [by right|done].
Qed.

Lemma apply_categories_satisfied claude_dir cs :
  Forall (λ c, Forall satisfied (items c)) cs →
  ∀ st, apply_categories claude_dir st cs = st.
Proof.
  induction 1 as [|c cs Hs _ IH]; intros st; [done|].
  rewrite apply_categories_cons.
  destruct (dest_dir_of claude_dir c); [|done].
  by rewrite apply_items_satisfied, IH.
Qed.

Lemma apply_categories_conflict claude_dir fs cs :
  Forall (λ c, Forall (λ it, placed claude_dir c it ∧ status it = CONFLICT
                             ∧ present fs (dest_path it)) (items c)) cs →
  ∀ rs, ∃ new,
    apply_categories claude_dir (fs, rs) cs = (fs, rs ++ new)
    ∧ item <$> new = concat (items <$> cs)
    ∧ Forall (λ r, success r = false) new.
Proof.
  induction 1 as [|c cs Hc _ IH]; intros rs.
  { exists []. by rewrite app_nil_r. }
  rewrite apply_categories_cons.
  destruct (dest_dir_of claude_dir c) as [d|] eqn:Hd.
  - destruct (apply_items_conflict d fs (items c)) with (rs := rs)
      as (new1 & -> & Hn1 & Hf1).
    { eapply Forall_impl; [done|]. simpl.
      intros it ((d' & n & Hd' & Hpl) & ? & ?). split_and!; try done.
      exists n. congruence. }
    destruct (IH (rs ++ new1)) as (new2 & -> & Hn2 & Hf2).
    exists (new1 ++ new2). split_and!.
    + by rewrite app_assoc.
    + simpl. by rewrite fmap_app, Hn1, Hn2.
    + by apply Forall_app.
  - destruct (items c) as [|it its] eqn:Hits.
    + destruct (IH rs) as (new & -> & Hn & Hf). exists new.
      split_and!; try done. simpl. by rewrite Hits.
    + apply Forall_cons in Hc as [((d' & n & Hd' & _) & _) _]. congruence.
Qed.

End Batch.

(** ** 11. Discovery *)

Section Order.

Lemma compare_refl (a : string) : String.compare a a = Eq.
Proof. by apply OrderedTypeEx.String_as_OT.cmp_eq. Qed.

Lemma compare_Eq (a b : string) : String.compare a b = Eq → a = b.
Proof. apply OrderedTypeEx.String_as_OT.cmp_eq. Qed.

Lemma compare_Lt_trans (a b c : string) :
  String.compare a b = Lt → String.compare b c = Lt →
  String.compare a c = Lt.
Proof.
  intros H1%OrderedTypeEx.String_as_OT.cmp_lt
         H2%OrderedTypeEx.String_as_OT.cmp_lt.
  apply OrderedTypeEx.String_as_OT.cmp_lt.
  by eapply OrderedTypeEx.String_as_OT.lt_trans.
Qed.

Lemma compare_Gt_Lt (a b : string) :
  String.compare a b = Gt → String.compare b a = Lt.
Proof. intros H. by rewrite String.compare_antisym, H. Qed.

#[global] Instance path_le_total : Total path_le.
Proof.
  intros p. unfold path_le.
  induction p as [|a p IH]; intros [|b q]; simpl; auto.
  destruct (String.compare a b) eqn:Hab; auto.
  - apply compare_Eq in Hab as ->. rewrite compare_refl. apply IH.
  - right. by rewrite (compare_Gt_Lt _ _ Hab).
Qed.

#[global] Instance path_le_trans : Transitive path_le.
Proof.
  intros p. unfold path_le.
  induction p as [|a p IH]; intros [|b q] [|c r]; simpl; try done.
  destruct (String.compare a b) eqn:Hab; try done.
  - apply compare_Eq in Hab as ->.
    destruct (String.compare b c); try done. apply IH.
  - destruct (String.compare b c) eqn:Hbc; try done.
    + apply compare_Eq in Hbc as ->. by rewrite Hab.
    + by rewrite (compare_Lt_trans _ _ _ Hab Hbc).
Qed.

(** Among the entries of one directory the order of the paths is the
    order of the names. *)
Lemma path_le_siblings (d : path) (a b : string) :
  path_le (d /: a) (d /: b) ↔ str_le a b.
Proof.
  unfold path_le, str_le, joinpath, String.leb.
  induction d as [|x d IH]; simpl.
  - by destruct (String.compare a b).
  - by rewrite compare_refl.
Qed.

Lemma sorted_StronglySorted (l : list path) :
  StronglySorted path_le (sorted l).
Proof. apply StronglySorted_merge_sort; apply _. Qed.

Lemma StronglySorted_filter {A} (R : relation A) (P : A → Prop)
    `{∀ x, Decision (P x)} (l : list A) :
  StronglySorted R l → StronglySorted R (filter P l).
Proof.
  induction 1 as [|x l Hl IH Hx]; [constructor|].
  rewrite filter_cons. destruct (decide (P x)); [|done].
  constructor; [done|]. apply Forall_forall.
  intros y [_ Hy]%list_elem_of_filter.
  by apply (proj1 (Forall_forall _ _) Hx).
Qed.

Lemma sorted_elem_of (l : list path) (p : path) : p ∈ sorted l ↔ p ∈ l.
Proof. unfold sorted. by rewrite merge_sort_Permutation. Qed.

End Order.

Section Discovery.

Implicit Types (fs : FS) (source_dir claude_dir : path) (c : Category).

(** The status [check_status] assigns depends on the two paths only. *)
Lemma check_status_paths fs (a b : Item) :
  dest_path a = dest_path b → source_path a = source_path b →
  status (check_status fs a) = status (check_status fs b).
Proof.
  intros Hd Hs. unfold check_status. rewrite Hd, Hs.
  by repeat (case_match; simpl).
Qed.

Lemma discovered_fields fs nm cat src dst :
  let it := discovered fs nm cat src dst in
  name it = nm ∧ category it = cat ∧ source_path it = src
  ∧ dest_path it = dst
  ∧ (selected it = true ↔ status it = INSTALLED)
  ∧ status it = status (check_status fs it).
Proof.
  unfold discovered. simpl.
  pose proof (check_status_fields fs
                (mkItem nm cat src dst NOT_INSTALLED false None))
    as (Hn & Hc & Hs & Hd & _).
  simpl in *. split_and!; try done.
  - by rewrite bool_decide_eq_true.
  - by apply check_status_paths.
Qed.

(** What a leaf-file block yields: nothing, or one category with the
    items of the sorted matches, of which there is at least one. *)
Lemma discover_md_cases fs source_dir claude_dir cat :
  discover_md fs source_dir claude_dir cat = []
  ∨ ∃ its,
      its ≠ [] ∧ path_exists fs (source_dir /: cat) = true
      ∧ its = (λ f, discovered fs (stem (basename f)) cat f
                      (claude_dir /: cat /: basename f))
              <$> sorted (glob_md fs (source_dir /: cat))
      ∧ discover_md fs source_dir claude_dir cat = [mkCategory cat its].
Proof.
  unfold discover_md.
  destruct (path_exists fs (source_dir /: cat)); [|by left].
  destruct (_ <$> sorted (glob_md fs (source_dir /: cat))) as [|it its] eqn:E;
    [by left|right].
  by exists (it :: its).
Qed.

Lemma discover_skills_cases fs source_dir claude_dir :
  (∃ e, discover_skills fs source_dir claude_dir = Raise e
        ∧ path_exists fs (source_dir /: "skills") = true
        ∧ is_dir fs (source_dir /: "skills") = false)
  ∨ discover_skills fs source_dir claude_dir = Ok []
  ∨ ∃ its ds,
      its ≠ [] ∧ path_exists fs (source_dir /: "skills") = true
      ∧ iterdir fs (source_dir /: "skills") = Ok ds
      ∧ its = (λ d, discovered fs (basename d) "skills" d
                      (claude_dir /: "skills" /: basename d))
              <$> filter (λ d, is_dir fs d
                               && path_exists fs (d /: "SKILL.md") = true)
                    (sorted ds)
      ∧ discover_skills fs source_dir claude_dir
        = Ok [mkCategory "skills" its].
Proof.
  unfold discover_skills.
  destruct (path_exists fs (source_dir /: "skills")) eqn:He; [|by right; left].
  destruct (iterdir fs (source_dir /: "skills")) as [ds|e] eqn:Hi.
  - right.
    destruct (_ <$> filter _ (sorted ds)) as [|it its] eqn:E; [by left|right].
    by exists (it :: its), ds.
  - left. exists e. split_and!; try done.
    destruct (is_dir fs (source_dir /: "skills")) eqn:Hd; [|done].
    unfold iterdir, listdir in Hi.
    destruct (is_dir_opendir fs _ (source_dir /: "skills") Hd) as [q Hq].
    rewrite Hq in Hi. apply opendir_Ok in Hq as [_ [es Hes]].
    by rewrite Hes in Hi.
Qed.

Lemma iterdir_names fs d ds p :
  iterdir fs d = Ok ds → p ∈ ds → ∃ n, p = d /: n.
Proof.
  unfold iterdir. destruct (listdir fs d) as [names|]; [|done].
  intros [= <-] (n & -> & _)%list_elem_of_fmap. eauto.
Qed.

Lemma glob_md_names fs d p : p ∈ glob_md fs d → ∃ n, p = d /: n.
Proof.
  unfold glob_md. destruct (is_dir fs d); [|by intros ?%elem_of_nil].
  destruct (listdir fs d) as [names|]; [|by intros ?%elem_of_nil].
  intros (n & -> & _)%list_elem_of_fmap. eauto.
Qed.

Lemma StronglySorted_fmap_elem {A B} (f : A → B) (R1 : relation A)
    (R2 : relation B) (l : list A) :
  (∀ x y, x ∈ l → y ∈ l → R1 x y → R2 (f x) (f y)) →
  StronglySorted R1 l → StronglySorted R2 (f <$> l).
Proof.
  intros Hf Hl. induction Hl as [|x l Hl IH Hx]; [constructor|].
  rewrite fmap_cons. constructor.
  - apply IH. intros a b Ha Hb. apply Hf; by right.
  - apply Forall_fmap, Forall_forall. intros y Hy. simpl.
    apply Hf; [left|by right|].
    by apply (proj1 (Forall_forall _ _) Hx).
Qed.

Lemma discover_items_Ok fs source_dir claude_dir cats :
  discover_items fs source_dir claude_dir = Ok cats →
  ∃ skills,
    discover_skills fs source_dir claude_dir = Ok skills
    ∧ cats = discover_md fs source_dir claude_dir "commands" ++ skills
             ++ discover_md fs source_dir claude_dir "agents".
Proof.
  unfold discover_items.
  destruct (discover_skills fs source_dir claude_dir) as [skills|];
    [|done].
  intros [= <-]. eauto.
Qed.

(** A surfaced category comes from one of the three blocks. *)
Lemma discover_items_elem fs source_dir claude_dir cats c :
  discover_items fs source_dir claude_dir = Ok cats → c ∈ cats →
  (∃ cat, (cat = "commands" ∨ cat = "agents")
          ∧ discover_md fs source_dir claude_dir cat = [c])
  ∨ discover_skills fs source_dir claude_dir = Ok [c].
Proof.
  intros (skills & Hs & ->)%discover_items_Ok Hc.
  apply elem_of_app in Hc as [Hc|Hc]; [|apply elem_of_app in Hc as [Hc|Hc]].
  - left. exists "commands". split; [by left|].
    destruct (discover_md_cases fs source_dir claude_dir "commands")
      as [E|(its & _ & _ & _ & E)]; rewrite E in Hc.
    + by apply elem_of_nil in Hc.
    + by apply list_elem_of_singleton in Hc as ->.
  - right.
    destruct (discover_skills_cases fs source_dir claude_dir)
      as [(e & E & _)|[E|(its & ds & _ & _ & _ & _ & E)]];
      rewrite E in Hs; try done; injection Hs as <-.
    + by apply elem_of_nil in Hc.
    + by apply list_elem_of_singleton in Hc as ->.
  - left. exists "agents". split; [by right|].
    destruct (discover_md_cases fs source_dir claude_dir "agents")
      as [E|(its & _ & _ & _ & E)]; rewrite E in Hc.
    + by apply elem_of_nil in Hc.
    + by apply list_elem_of_singleton in Hc as ->.
Qed.

(** Every discovered item lies in the destination directory of its
    category and carries the status the classifier gives it. *)
Lemma discover_items_item fs source_dir claude_dir cats c it :
  discover_items fs source_dir claude_dir = Ok cats → c ∈ cats →
  it ∈ items c →
  placed claude_dir c it ∧ status it = status (check_status fs it).
Proof.
  intros Hok Hc Hit.
  destruct (discover_items_elem _ _ _ _ _ Hok Hc)
    as [(cat & Hcat & Hmd)|Hsk].
  - destruct (discover_md_cases fs source_dir claude_dir cat)
      as [E|(its & _ & _ & Hits & E)]; rewrite E in Hmd; [done|].
    injection Hmd as <-. simpl in Hit. rewrite Hits in Hit.
    apply list_elem_of_fmap in Hit as (f & -> & _).
    destruct (discovered_fields fs (stem (basename f)) cat f
                (claude_dir /: cat /: basename f))
      as (_ & _ & _ & Hd & _ & Hst).
    split; [|done]. exists (claude_dir /: cat), (basename f).
    split; [|done]. by destruct Hcat as [-> | ->].
  - destruct (discover_skills_cases fs source_dir claude_dir)
      as [(e & E & _)|[E|(its & ds & _ & _ & _ & Hits & E)]];
      rewrite E in Hsk; try done.
    injection Hsk as <-. simpl in Hit. rewrite Hits in Hit.
    apply list_elem_of_fmap in Hit as (d & -> & _).
    destruct (discovered_fields fs (basename d) "skills" d
                (claude_dir /: "skills" /: basename d))
      as (_ & _ & _ & Hd & _ & Hst).
    split; [|done]. by exists (claude_dir /: "skills"), (basename d).
Qed.

End Discovery.

(** ** 12. The library behind the script *)

Section Interface.

Context {W E : Type}.

Implicit Types (w : W) (it : Item) (fs : FS) (dest_dir : path).

(** [check_status] raises what a test outside its [try] raises, and
    nothing else. *)
Lemma check_status_on_raises {Q : Queries W E} w it e :
  check_status_on w it = Raises e ↔
  lib_exists w (dest_path it) = Raises e
  ∨ ((∃ b, lib_exists w (dest_path it) = Returns b)
     ∧ lib_is_symlink w (dest_path it) = Raises e).
Proof.
  unfold check_status_on.
  destruct (lib_exists w (dest_path it)) as [[|]|e1];
    destruct (lib_is_symlink w (dest_path it)) as [[|]|e2]; simpl;
    split; try done; try (intros [= <-]; eauto; fail).
  all: try (intros [?|[_ ?]]; congruence).
  intros [?|[[b ?] _]]; congruence.
Qed.

Lemma check_status_on_absent {Q : Queries W E} w it :
  lib_exists w (dest_path it) = Returns false →
  lib_is_symlink w (dest_path it) = Returns false →
  check_status_on w it = Returns (set_status NOT_INSTALLED None it).
Proof. unfold check_status_on. by intros -> ->. Qed.

Lemma check_status_on_link {Q : Queries W E} w it b :
  lib_exists w (dest_path it) = Returns b →
  lib_is_symlink w (dest_path it) = Returns true →
  check_status_on w it = Returns (classify_link w it).
Proof. unfold check_status_on. intros -> ->. by destruct b. Qed.

Lemma classify_link_status {Q : Queries W E} w it :
  status (classify_link w it) = INSTALLED
  ∨ status (classify_link w it) = CONFLICT.
Proof.
  unfold classify_link.
  destruct (lib_resolve w (dest_path it)); [|by right].
  destruct (lib_resolve w (source_path it)); [|by right].
  case_decide; [by left|by right].
Qed.

End Interface.

Section Model.

Implicit Types (it : Item) (fs : FS) (dest_dir : path).

(** On the model the three methods written against the library are the
    ones written against the file system. *)
Lemma check_status_on_model fs it :
  check_status_on (Q := model_queries) fs it = Returns (check_status fs it).
Proof.
  unfold check_status_on, check_status, classify_link. simpl.
  destruct (path_exists fs (dest_path it));
    destruct (is_symlink fs (dest_path it)); simpl; try done.
  all: destruct (resolve fs (dest_path it)); simpl; try done.
  all: by destruct (resolve fs (source_path it)).
Qed.

Lemma install_item_on_model fs it dest_dir :
  _install_item_on (L := model) fs it dest_dir = _install_item fs it dest_dir.
Proof.
  unfold _install_item_on, _install_item. simpl.
  destruct (mkdir fs dest_dir) as [fs1 [e|]]; [done|].
  destruct (path_exists fs1 (dest_path it));
    destruct (is_symlink fs1 (dest_path it)); simpl; try done.
  by destruct (symlink_to fs1 (dest_path it) (source_path it)).
Qed.

Lemma uninstall_item_on_model fs it :
  _uninstall_item_on (L := model) fs it = _uninstall_item fs it.
Proof.
  unfold _uninstall_item_on, _uninstall_item. simpl.
  destruct (is_symlink fs (dest_path it)); simpl; [|done].
  destruct (resolve fs (dest_path it)); simpl; [|done].
  destruct (resolve fs (source_path it)); simpl; [|done].
  case_decide; [done|].
  by destruct (unlink fs (dest_path it)).
Qed.

(** [parents=True]: a missing ancestor is never what [mkdir] raises
    for. *)
Lemma mkdir_rev_not_found fs rp fs' e q :
  mkdir_rev fs rp = (fs', Some e) → e ≠ FileNotFoundError q.
Proof.
  revert fs' e. induction rp as [|c rd IH]; intros fs' e; simpl.
  - destruct (is_dir fs []); [done|]. by intros [= _ <-].
  - destruct (os_mkdir fs (rev rd ++ [c])) as [fs1|e1] eqn:Hos; [done|].
    destruct e1 as [p|p|p|p|p|p|t p];
      try (destruct (is_dir fs (rev rd ++ [c])); [done|by intros [= _ <-]]).
    destruct (mkdir_rev fs rd) as [fs1 [e2|]] eqn:Hrec.
    { intros [= _ <-]. by eapply IH. }
    unfold mkdir_leaf. simpl.
    destruct (os_mkdir fs1 (rev rd ++ [c])) as [fs2|e3] eqn:Hos'; [done|].
    destruct e3 as [p'|p'|p'|p'|p'|p'|t' p'];
      try (destruct (is_dir fs1 (rev rd ++ [c])); simpl;
           [done|by intros [= _ <-]]).
    apply os_mkdir_not_found in Hos'.
    apply mkdir_rev_is_dir in Hrec. unfold is_dir in Hrec.
    by rewrite Hos' in Hrec.
Qed.

Lemma mkdir_not_found fs p fs' e q :
  mkdir fs p = (fs', Some e) → e ≠ FileNotFoundError q.
Proof. apply mkdir_rev_not_found. Qed.

End Model.

(** ** 13. Properties of the program *)



(** C2 is not what the code does.  In [apply_changes] the branch that
    refuses a selected Conflict item comes after the branch for
    "selected and not installed", which takes every such item: the
    install procedure runs.  With a regular file in the way the message
    is the one of [_install_item], not the stored conflict detail; and
    when the file has gone since the status was computed, the link is
    created. *)
Theorem conflict_selected_runs_install :
  (∀ fs dest_dir it,
     status it = CONFLICT → selected it = true →
     apply_item fs dest_dir it
     = (fst (_install_item fs it dest_dir),
        [snd (_install_item fs it dest_dir)]))
  ∧ (let it := Sample.foo CONFLICT true
                 (Some "Path exists but is not a symlink: /home/u/.claude/commands/foo.md") in
     apply_changes Sample.blocked Sample.claude [mkCategory "commands" [it]]
     = (Sample.blocked,
        [mkCategory "commands"
           [Sample.foo CONFLICT false
              (Some "Path exists but is not a symlink: /home/u/.claude/commands/foo.md")]],
        [mkResult it install false
           "Destination already exists: /home/u/.claude/commands/foo.md"])
     ∧ snd (apply_changes Sample.fresh Sample.claude
              [mkCategory "commands" [it]])
       = [mkResult it install true
            "Created symlink: /home/u/.claude/commands/foo.md -> /opt/superpowers/commands/foo.md"]).
Proof.
  split.
  - intros fs dest_dir it Hst Hsel. unfold apply_item. rewrite Hst, Hsel.
    simpl. by destruct (_install_item fs it dest_dir).
  - split; by vm_compute.
Qed.

Lemma conflict_selected_runs_install_witness :
  let it := Sample.foo CONFLICT true (Some "in the way") in
  apply_item Sample.blocked (Sample.claude /: "commands") it
  = (Sample.blocked,
     [mkResult it install false
        "Destination already exists: /home/u/.claude/commands/foo.md"]).
Proof.
  simpl.
  rewrite (proj1 conflict_selected_runs_install Sample.blocked
             (Sample.claude /: "commands")
             (Sample.foo CONFLICT true (Some "in the way")) eq_refl eq_refl).
  by vm_compute.
Defined.



(** C4, as stated, fails.  Where the platform refuses to create
    symbolic links, [mkdir] has made the directory and nothing is at
    [dest_path], yet no link is created and the result is a failure. *)
Lemma install_fails_without_link_permission :
  let it := Sample.foo NOT_INSTALLED true None in
  let dest_dir := Sample.claude /: "commands" in
  let fs1 := fst (mkdir Sample.fresh_nolinks dest_dir) in
  snd (mkdir Sample.fresh_nolinks dest_dir) = None
  ∧ is_dir fs1 dest_dir = true
  ∧ ¬ present fs1 (dest_path it)
  ∧ _install_item Sample.fresh_nolinks it dest_dir
    = (fs1, mkResult it install false
              "[Errno 1] Operation not permitted: '/opt/superpowers/commands/foo.md' -> '/home/u/.claude/commands/foo.md'")
  ∧ lstat fs1 (dest_path it) = None
  ∧ ¬ (∀ fs it dest_dir fs1,
         mkdir fs dest_dir = (fs1, None) → ¬ present fs1 (dest_path it) →
         success (snd (_install_item fs it dest_dir)) = true).
Proof.
  assert (¬ present (fst (mkdir Sample.fresh_nolinks
                            (Sample.claude /: "commands")))
            (dest_path (Sample.foo NOT_INSTALLED true None))) as Hfree.
  { apply not_present. vm_compute. split; reflexivity. }
  split; [vm_compute; reflexivity|].
  split; [vm_compute; reflexivity|].
  split; [exact Hfree|].
  split; [vm_compute; reflexivity|].
  split; [vm_compute; reflexivity|].
  intros H.
  specialize (H Sample.fresh_nolinks (Sample.foo NOT_INSTALLED true None)
                (Sample.claude /: "commands") _ eq_refl Hfree).
  vm_compute in H. discriminate H.
Qed.

(** C4, as the code has it.  For any library: [_install_item] first
    calls [mkdir(parents=True, exist_ok=True)] on the category
    directory, and when that raises the result is a failure with the
    error text.  Otherwise, when [exists()] or [is_symlink()] raises the
    result is a failure with the error text; when one of them returns
    true the result is the failure "Destination already exists" and
    nothing more is called; and when both return false [symlink_to] is
    called: the result is a success whose message has both paths if it
    returns, and a failure with the error text if it raises.  So the
    result is a success exactly when [mkdir] returned, both tests
    returned false and [symlink_to] returned.  On the model of the file
    system the method is [_install_item]; there [mkdir] never raises for
    a missing ancestor, leaves the category directory in place when it
    returns, touching nothing if it was there, and a link that
    [symlink_to] made is at [dest_path] and leads to [source_path].  In
    a home directory without [.claude], [mkdir] makes both [.claude] and
    [.claude/commands]. *)
Theorem install_item_spec {W E : Type} {L : Library W E} (w : W) (it : Item)
    (dest_dir : path) :
  (∀ w1 e, lib_mkdir w dest_dir = (w1, Some e) →
     _install_item_on w it dest_dir
     = (w1, mkResult it install false (lib_str e)))
  ∧ (∀ w1, lib_mkdir w dest_dir = (w1, None) →
       (∀ e, lib_exists w1 (dest_path it) = Raises e
             ∨ (lib_exists w1 (dest_path it) = Returns false
                ∧ lib_is_symlink w1 (dest_path it) = Raises e) →
             _install_item_on w it dest_dir
             = (w1, mkResult it install false (lib_str e)))
       ∧ (lib_exists w1 (dest_path it) = Returns true
          ∨ (lib_exists w1 (dest_path it) = Returns false
             ∧ lib_is_symlink w1 (dest_path it) = Returns true) →
          _install_item_on w it dest_dir
          = (w1, mkResult it install false
                   ("Destination already exists: "
                    +:+ path_str (dest_path it))))
       ∧ (lib_exists w1 (dest_path it) = Returns false →
          lib_is_symlink w1 (dest_path it) = Returns false →
          (∀ e, lib_symlink_to w1 (dest_path it) (source_path it) = Raises e →
                _install_item_on w it dest_dir
                = (w1, mkResult it install false (lib_str e)))
          ∧ (∀ w2, lib_symlink_to w1 (dest_path it) (source_path it)
                   = Returns w2 →
                   _install_item_on w it dest_dir
                   = (w2, mkResult it install true
                            ("Created symlink: " +:+ path_str (dest_path it)
                             +:+ " -> " +:+ path_str (source_path it))))))
  ∧ (success (snd (_install_item_on w it dest_dir)) = true ↔
     ∃ w1, lib_mkdir w dest_dir = (w1, None)
           ∧ lib_exists w1 (dest_path it) = Returns false
           ∧ lib_is_symlink w1 (dest_path it) = Returns false
           ∧ lib_symlink_to w1 (dest_path it) (source_path it)
             = Returns (fst (_install_item_on w it dest_dir)))
  ∧ (∀ fs : FS,
       _install_item_on (L := model) fs it dest_dir
       = _install_item fs it dest_dir
       ∧ (∀ fs1 e q, mkdir fs dest_dir = (fs1, Some e) →
                     e ≠ FileNotFoundError q)
       ∧ (∀ fs1, mkdir fs dest_dir = (fs1, None) →
            is_dir fs1 dest_dir = true
            ∧ (is_dir fs dest_dir = true → fs1 = fs)
            ∧ ∀ fs2, symlink_to fs1 (dest_path it) (source_path it) = Ok fs2 →
                     lstat fs2 (dest_path it)
                     = Some (Link (source_path it))))
  ∧ (is_dir Sample.bare Sample.claude = false
     ∧ snd (mkdir Sample.bare (Sample.claude /: "commands")) = None
     ∧ is_dir (fst (mkdir Sample.bare (Sample.claude /: "commands")))
         Sample.claude = true
     ∧ is_dir (fst (mkdir Sample.bare (Sample.claude /: "commands")))
         (Sample.claude /: "commands") = true).
Proof.
  split_and!.
  - intros w1 e Hm. unfold _install_item_on. by rewrite Hm.
  - intros w1 Hm. unfold _install_item_on. rewrite Hm. split_and!.
    + intros e [->|[-> ->]]; done.
    + intros [->|[-> ->]]; done.
    + intros -> ->. split; by intros ? ->.
  - unfold _install_item_on.
    destruct (lib_mkdir w dest_dir) as [w1 [e|]] eqn:Hm.
    { split; [done|]. by intros (? & [=] & _). }
    destruct (lib_exists w1 (dest_path it)) as [[|]|e1] eqn:He;
      try (split; [done|]; intros (? & [= <-] & ? & _); congruence).
    destruct (lib_is_symlink w1 (dest_path it)) as [[|]|e2] eqn:Hl;
      try (split; [done|]; intros (? & [= <-] & _ & ? & _); congruence).
    destruct (lib_symlink_to w1 (dest_path it) (source_path it))
      as [w2|e3] eqn:Hs.
    + split; [|done]. intros _. by exists w1.
    + split; [done|]. intros (? & [= <-] & _ & _ & ?). congruence.
  - intros fs. split_and!.
    + apply install_item_on_model.
    + intros fs1 e q. apply mkdir_not_found.
    + intros fs1 Hm. split_and!.
      * by eapply mkdir_is_dir.
      * intros Hd. rewrite (mkdir_noop _ _ Hd) in Hm. congruence.
      * intros fs2. apply symlink_to_lstat.
  - vm_compute. reflexivity.
  - vm_compute. reflexivity.
  - vm_compute. reflexivity.
  - vm_compute. reflexivity.
Qed.

(** On the samples: with nothing in the way and links permitted, the
    link is made and the message has both paths. *)
Lemma install_item_spec_witness :
  snd (_install_item Sample.fresh (Sample.foo NOT_INSTALLED true None)
         (Sample.claude /: "commands"))
  = mkResult (Sample.foo NOT_INSTALLED true None) install true
      "Created symlink: /home/u/.claude/commands/foo.md -> /opt/superpowers/commands/foo.md"
  ∧ lstat (fst (_install_item Sample.fresh
                  (Sample.foo NOT_INSTALLED true None)
                  (Sample.claude /: "commands")))
      (dest_path (Sample.foo NOT_INSTALLED true None))
    = Some (Link (source_path (Sample.foo NOT_INSTALLED true None))).
Proof.
  split; [vm_compute; reflexivity|].
  destruct (install_item_spec (L := model) Sample.fresh
              (Sample.foo NOT_INSTALLED true None)
              (Sample.claude /: "commands")) as (_ & _ & Hiff & Hmodel & _).
  destruct (Hmodel Sample.fresh) as (Heq & _ & Hmk).
  destruct (proj1 Hiff) as (fs1 & Hm & _ & _ & Hl).
  { vm_compute. reflexivity. }
  destruct (Hmk fs1 Hm) as (_ & _ & Hlst).
  assert (of_result
            (symlink_to fs1 (dest_path (Sample.foo NOT_INSTALLED true None))
               (source_path (Sample.foo NOT_INSTALLED true None)))
          = Returns (fst (_install_item Sample.fresh
                            (Sample.foo NOT_INSTALLED true None)
                            (Sample.claude /: "commands")))) as Hl'.
  { rewrite <-Heq. exact Hl. }
  destruct (symlink_to fs1 (dest_path (Sample.foo NOT_INSTALLED true None))
              (source_path (Sample.foo NOT_INSTALLED true None)))
    as [fs2|e] eqn:Hs; [|discriminate Hl'].
  injection Hl' as <-. exact (Hlst fs2 eq_refl).
Defined.

(** C5 is not what the code does.  An unselected Conflict item is
    refused and nothing is touched.  A selected one is taken by the
    branch for "selected and not installed" of [apply_changes], so the
    install procedure runs: it refuses as long as something is at
    [dest_path], and installs when nothing is.  With a status that is
    stale (the object has gone since the classification), the batch
    reports a success and a link is at what was an empty path.  With a
    status fresh from discovery, in a batch that first uninstalls the
    command [foo] whose link the destination of the agent [foo] leads
    to, the agent is installed with success although it was classified
    Conflict, and the link at its destination is replaced. *)
Theorem conflict_item_can_be_mutated :
  (∀ fs dest_dir it,
     status it = CONFLICT → selected it = false →
     apply_item fs dest_dir it = (fs, [refusal it]))
  ∧ (∀ fs dest_dir it,
       status it = CONFLICT → selected it = true →
       apply_item fs dest_dir it
       = (fst (_install_item fs it dest_dir),
          [snd (_install_item fs it dest_dir)])
       ∧ (∀ n, dest_path it = dest_dir /: n → present fs (dest_path it) →
               _install_item fs it dest_dir
               = (fs, mkResult it install false
                        ("Destination already exists: "
                         +:+ path_str (dest_path it)))))
  ∧ (let it := Sample.foo CONFLICT true
                 (Some "Path exists but is not a symlink: /home/u/.claude/commands/foo.md") in
     let batch := apply_changes Sample.fresh Sample.claude
                    [mkCategory "commands" [it]] in
     lstat Sample.fresh (dest_path it) = None
     ∧ snd batch
       = [mkResult it install true
            "Created symlink: /home/u/.claude/commands/foo.md -> /opt/superpowers/commands/foo.md"]
     ∧ lstat (fst (fst batch)) (dest_path it)
       = Some (Link (source_path it)))
  ∧ (let detail :=
       Some "Symlink points to /opt/superpowers/commands/foo.md, expected /opt/superpowers/agents/foo.md" in
     let cats := [mkCategory "commands" [Sample.foo INSTALLED true None];
                  mkCategory "agents"
                    [Sample.agent_foo CONFLICT false detail]] in
     let batch := apply_changes Sample.crossed Sample.claude
                    (_toggle_node (_toggle_node cats (item_node 0 0))
                       (item_node 1 0)) in
     discover_items Sample.crossed Sample.src Sample.claude = Ok cats
     ∧ lstat Sample.crossed (Sample.claude /: "agents" /: "foo.md")
       = Some (Link (Sample.src /: "commands" /: "foo.md"))
     ∧ snd batch
       = [mkResult (Sample.foo INSTALLED false None) uninstall true
            "Removed symlink: /home/u/.claude/commands/foo.md";
          mkResult (Sample.agent_foo CONFLICT true detail) install true
            "Created symlink: /home/u/.claude/agents/foo.md -> /opt/superpowers/agents/foo.md"]
     ∧ lstat (fst (fst batch)) (Sample.claude /: "agents" /: "foo.md")
       = Some (Link (Sample.src /: "agents" /: "foo.md"))).
Proof.
  split_and!.
  - intros fs dest_dir it Hst Hsel. unfold apply_item, refusal.
    by rewrite Hst, Hsel.
  - intros fs dest_dir it Hst Hsel. split.
    + unfold apply_item. rewrite Hst, Hsel. simpl.
      by destruct (_install_item fs it dest_dir).
    + intros n Hpl Hp. by eapply install_occupied.
  - vm_compute. repeat split.
  - vm_compute. repeat split.
Qed.

(** On the samples: with the regular file still in the way, the selected
    Conflict item is refused by the install procedure. *)
Lemma conflict_item_can_be_mutated_witness :
  let it := Sample.foo CONFLICT true (Some "in the way") in
  apply_item Sample.blocked (Sample.claude /: "commands") it
  = (Sample.blocked,
     [mkResult it install false
        "Destination already exists: /home/u/.claude/commands/foo.md"]).
Proof.
  simpl.
  destruct (proj1 (proj2 conflict_item_can_be_mutated) Sample.blocked
              (Sample.claude /: "commands")
              (Sample.foo CONFLICT true (Some "in the way")) eq_refl eq_refl)
    as [Ha Hi].
  rewrite Ha, (Hi "foo.md" eq_refl); [reflexivity|].
  left. vm_compute. reflexivity.
Defined.

(** C6. An item whose status already is what its selection asks for
    (Installed and selected, or NotInstalled and not selected) causes no
    file-system operation and no result: its step returns the state as
    it is; no result of a batch is about such an item; and a batch of
    such items leaves the file system alone and reports nothing. *)
Theorem satisfied_is_noop (fs : FS) (claude_dir : path)
    (categories : list Category) :
  (∀ dest_dir it, satisfied it → apply_item fs dest_dir it = (fs, []))
  ∧ (∀ r, r ∈ snd (apply_changes fs claude_dir categories) →
          (∃ c, c ∈ categories ∧ item r ∈ items c) ∧ ¬ satisfied (item r))
  ∧ ((∀ c it, c ∈ categories → it ∈ items c → satisfied it) →
     apply_changes fs claude_dir categories
     = (fs, refresh fs categories, [])).
Proof.
  split_and!.
  - intros. by apply apply_item_satisfied.
  - intros r. unfold apply_changes.
    destruct (apply_categories_results claude_dir categories fs [])
      as (new & Hnew & Hall).
    destruct (apply_categories claude_dir (fs, []) categories) as [fs' rs].
    simpl in *. subst rs. intros Hr.
    by apply (proj1 (Forall_forall _ _) Hall).
  - intros Hall. unfold apply_changes.
    rewrite apply_categories_satisfied; [done|].
    apply Forall_forall. intros c Hc. apply Forall_forall. intros it Hit.
    by eapply Hall.
Qed.

Lemma satisfied_is_noop_witness :
  apply_changes Sample.linked Sample.claude
    [mkCategory "commands" [Sample.foo INSTALLED true None]]
  = (Sample.linked,
     refresh Sample.linked
       [mkCategory "commands" [Sample.foo INSTALLED true None]],
     []).
Proof.
  apply satisfied_is_noop.
  intros c it ->%list_elem_of_singleton Hit. simpl in Hit.
  apply list_elem_of_singleton in Hit as ->. by left.
Defined.



(** C8, as stated, fails.  With [commands/foo.md] and
    [commands/foo-bar.md] in the source tree, the path of [foo-bar.md]
    sorts before the path of [foo.md] ("-" is below "."), so the item
    [foo-bar] comes before the item [foo], while "foo" is below
    "foo-bar". *)
Lemma discovery_not_sorted_by_name :
  (∃ cats,
     discover_items Sample.fresh Sample.src Sample.claude = Ok cats
     ∧ (λ c, (cat_name c, name <$> items c)) <$> cats
       = [("commands", ["foo-bar"; "foo"]); ("skills", ["bar"])])
  ∧ ¬ str_le "foo-bar" "foo"
  ∧ ¬ (∀ fs source_dir claude_dir cats c,
         discover_items fs source_dir claude_dir = Ok cats → c ∈ cats →
         Sorted str_le (name <$> items c)).
Proof.
  destruct (discover_items Sample.fresh Sample.src Sample.claude)
    as [cats|] eqn:Hd; [|by vm_compute in Hd].
  split_and!.
  - exists cats. split; [done|]. vm_compute in Hd. by injection Hd as <-.
  - by vm_compute.
  - intros H.
    pose proof (λ c, H Sample.fresh Sample.src Sample.claude cats c Hd) as H'.
    vm_compute in Hd. injection Hd as <-.
    specialize (H' _ (list_elem_of_here _ _)). simpl in H'.
    apply Sorted_inv in H' as [_ H']. apply HdRel_inv in H'.
    by vm_compute in H'.
Qed.

(** C8, as the code has it.  Within each category the items are in
    the order of their source paths, that is of the file names with the
    extension for commands and agents, and of the directory names, which
    are the item names, for skills.  Every item is preselected exactly
    when its status is Installed, carries the status the classifier
    gives it, and is named by the stem of its file name (commands,
    agents) or by its directory name (skills). *)
Theorem discovery_sorted_and_preselected fs source_dir claude_dir cats c :
  discover_items fs source_dir claude_dir = Ok cats → c ∈ cats →
  StronglySorted path_le (source_path <$> items c)
  ∧ (cat_name c = "skills" → StronglySorted str_le (name <$> items c))
  ∧ Forall (λ it,
              (selected it = true ↔ status it = INSTALLED)
              ∧ status it = status (check_status fs it)
              ∧ name it = if decide (cat_name c = "skills")
                          then basename (source_path it)
                          else stem (basename (source_path it)))
           (items c).
Proof.
  intros Hok Hc.
  destruct (discover_items_elem _ _ _ _ _ Hok Hc)
    as [(cat & Hcat & Hmd)|Hsk].
  - destruct (discover_md_cases fs source_dir claude_dir cat)
      as [E|(its & Hne & Hex & Hits & E)]; rewrite E in Hmd; [done|].
    injection Hmd as <-. simpl.
    assert (cat ≠ "skills") as Hns by (by destruct Hcat as [-> | ->]).
    split_and!.
    + rewrite Hits, <-list_fmap_compose.
      rewrite (list_fmap_ext _ id (sorted (glob_md fs (source_dir /: cat))));
        [rewrite list_fmap_id; apply sorted_StronglySorted|].
      intros i f _. simpl. apply discovered_fields.
    + done.
    + rewrite Hits. apply Forall_fmap, Forall_forall. intros f _.
      unfold compose.
      destruct (discovered_fields fs (stem (basename f)) cat f
                  (claude_dir /: cat /: basename f))
        as (Hn & _ & Hs & _ & Hsel & Hst).
      revert Hn Hs Hsel Hst.
      generalize (discovered fs (stem (basename f)) cat f
                    (claude_dir /: cat /: basename f)).
      intros it Hn Hs Hsel Hst. rewrite Hs.
      by destruct (decide (cat = "skills")).
  - destruct (discover_skills_cases fs source_dir claude_dir)
      as [(e & E & _)|[E|(its & ds & Hne & Hex & Hi & Hits & E)]];
      rewrite E in Hsk; try done.
    injection Hsk as <-. simpl.
    set (P := λ d, is_dir fs d && path_exists fs (d /: "SKILL.md") = true)
      in *.
    assert (StronglySorted path_le (filter P (sorted ds))) as Hsorted.
    { apply StronglySorted_filter, sorted_StronglySorted. }
    split_and!.
    + rewrite Hits, <-list_fmap_compose.
      rewrite (list_fmap_ext _ id (filter P (sorted ds)));
        [by rewrite list_fmap_id|].
      intros i d _. simpl. apply discovered_fields.
    + intros _. rewrite Hits, <-list_fmap_compose.
      eapply StronglySorted_fmap_elem; [|exact Hsorted].
      intros x y [_ Hx]%list_elem_of_filter [_ Hy]%list_elem_of_filter Hxy.
      rewrite sorted_elem_of in Hx. rewrite sorted_elem_of in Hy.
      destruct (iterdir_names _ _ _ _ Hi Hx) as [a ->].
      destruct (iterdir_names _ _ _ _ Hi Hy) as [b ->].
      unfold compose.
      destruct (discovered_fields fs (basename (source_dir /: "skills" /: a))
                  "skills" (source_dir /: "skills" /: a)
                  (claude_dir /: "skills"
                   /: basename (source_dir /: "skills" /: a)))
        as (-> & _).
      destruct (discovered_fields fs (basename (source_dir /: "skills" /: b))
                  "skills" (source_dir /: "skills" /: b)
                  (claude_dir /: "skills"
                   /: basename (source_dir /: "skills" /: b)))
        as (-> & _).
      unfold joinpath at 1 3. rewrite !basename_snoc.
      by apply path_le_siblings in Hxy.
    + rewrite Hits. apply Forall_fmap, Forall_forall. intros d _.
      unfold compose.
      destruct (discovered_fields fs (basename d) "skills" d
                  (claude_dir /: "skills" /: basename d))
        as (Hn & _ & Hs & _ & Hsel & Hst).
      revert Hn Hs Hsel Hst.
      generalize (discovered fs (basename d) "skills" d
                    (claude_dir /: "skills" /: basename d)).
      intros it Hn Hs Hsel Hst. by rewrite Hs.
Qed.

Lemma discovery_sorted_and_preselected_witness :
  ∃ cats c,
    discover_items Sample.linked Sample.src Sample.claude = Ok cats
    ∧ c ∈ cats
    ∧ (source_path <$> items c)
      = [Sample.src /: "commands" /: "foo-bar.md";
         Sample.src /: "commands" /: "foo.md"]
    ∧ StronglySorted path_le (source_path <$> items c)
    ∧ selected <$> items c = [false; true].
Proof.
  destruct (discover_items Sample.linked Sample.src Sample.claude)
    as [cats|] eqn:Hd; [|by vm_compute in Hd].
  exists cats.
  pose proof (λ c, discovery_sorted_and_preselected Sample.linked Sample.src
                     Sample.claude cats c Hd) as H.
  vm_compute in Hd. injection Hd as <-.
  eexists. split; [done|]. split; [by left|].
  split; [done|]. split; [|done].
  by apply (H _ (list_elem_of_here _ _)).
Defined.

(** C9. [_install_item] makes the category directory before it looks at
    [dest_path]: whenever [mkdir] succeeded and the install then fails,
    the state returned is the one [mkdir] produced, directory included.
    And this happens: on a platform that refuses to create links, a
    batch with one selected item makes the missing [commands] directory
    and reports a failed install. *)
Theorem refused_install_keeps_directory :
  (∀ fs it dest_dir fs1,
     mkdir fs dest_dir = (fs1, None) →
     success (snd (_install_item fs it dest_dir)) = false →
     fst (_install_item fs it dest_dir) = fs1 ∧ is_dir fs1 dest_dir = true)
  ∧ (∃ fs claude_dir c it,
       placed claude_dir c it ∧ items c = [it] ∧ selected it = true
       ∧ ∃ dest_dir fs' cs r,
           dest_dir_of claude_dir c = Some dest_dir
           ∧ apply_changes fs claude_dir [c] = (fs', cs, [r])
           ∧ action r = install ∧ success r = false
           ∧ is_dir fs dest_dir = false ∧ is_dir fs' dest_dir = true).
Proof.
  split.
  - intros fs it dest_dir fs1 Hm Hf. split.
    + by apply install_failed_state.
    + by eapply mkdir_is_dir.
  - exists Sample.fresh_nolinks, Sample.claude,
      (mkCategory "commands" [Sample.foo NOT_INSTALLED true None]),
      (Sample.foo NOT_INSTALLED true None).
    split_and!; try done.
    { exists (Sample.claude /: "commands"), "foo.md". by vm_compute. }
    exists (Sample.claude /: "commands").
    destruct (apply_changes Sample.fresh_nolinks Sample.claude
                [mkCategory "commands" [Sample.foo NOT_INSTALLED true None]])
      as [[fs' cs] rs] eqn:Ha.
    vm_compute in Ha. injection Ha as <- <- <-.
    eexists _, _, _. split_and!; try reflexivity.
Qed.

Lemma refused_install_keeps_directory_witness :
  is_dir Sample.fresh_nolinks (Sample.claude /: "commands") = false
  ∧ success (snd (_install_item Sample.fresh_nolinks
                    (Sample.foo NOT_INSTALLED true None)
                    (Sample.claude /: "commands"))) = false
  ∧ is_dir (fst (_install_item Sample.fresh_nolinks
                   (Sample.foo NOT_INSTALLED true None)
                   (Sample.claude /: "commands")))
      (Sample.claude /: "commands") = true.
Proof.
  destruct (mkdir Sample.fresh_nolinks (Sample.claude /: "commands"))
    as [fs1 [e|]] eqn:Hm; [by vm_compute in Hm|].
  assert (success (snd (_install_item Sample.fresh_nolinks
                          (Sample.foo NOT_INSTALLED true None)
                          (Sample.claude /: "commands"))) = false) as Hf
    by (by vm_compute).
  destruct (proj1 refused_install_keeps_directory _ _ _ _ Hm Hf) as [-> Hd].
  split_and!; [by vm_compute|exact Hf|exact Hd].
Defined.

(** C10, as stated, fails twice.  [commands/gone.md] links to the source
    file of [gone], which is no longer there: the link is dangling, both
    paths resolve to the same missing path, and the status is Installed.
    And the classifier is not total: on Linux, with a file name of 259
    bytes, [exists()] raises [OSError] on the first line of
    [check_status], outside the [try], and so does [check_status]. *)
Lemma dangling_link_not_always_conflict :
  dangling Sample.orphaned (dest_path (Sample.gone NOT_INSTALLED false None))
  ∧ status (check_status Sample.orphaned
              (Sample.gone NOT_INSTALLED false None)) = INSTALLED
  ∧ ¬ (∀ fs it, dangling fs (dest_path it) →
                status (check_status fs it) = CONFLICT)
  ∧ check_status_on (Q := linux_queries) Sample.blocked
      (Sample.long NOT_INSTALLED false None)
    = Raises (NameTooLong (Sample.claude /: "commands" /: Sample.long_md))
  ∧ ¬ (∀ W E (Q : Queries W E) (w : W) (it : Item),
         ∃ it', check_status_on w it = Returns it').
Proof.
  assert (dangling Sample.orphaned
            (dest_path (Sample.gone NOT_INSTALLED false None))) as Hd
    by (by vm_compute).
  assert (check_status_on (Q := linux_queries) Sample.blocked
            (Sample.long NOT_INSTALLED false None)
          = Raises (NameTooLong (Sample.claude /: "commands"
                                 /: Sample.long_md))) as Hr
    by (vm_compute; reflexivity).
  split_and!; [exact Hd|by vm_compute| |exact Hr|].
  - intros H.
    specialize (H Sample.orphaned (Sample.gone NOT_INSTALLED false None) Hd).
    vm_compute in H. discriminate.
  - intros H.
    destruct (H FS os_exn linux_queries Sample.blocked
                (Sample.long NOT_INSTALLED false None)) as [it' H'].
    rewrite Hr in H'. discriminate.
Qed.

(** C10, as the code has it, for any library.  [check_status] raises
    exactly what [exists()] or [is_symlink()] raises, which it calls
    outside its [try]; when both return it returns, with one of the
    three statuses.  For a symbolic link at [dest_path], dangling or
    not, the status is never NotInstalled: an error of [resolve()] is
    folded into Conflict with its text; when both paths resolve, the
    status is Installed if the resolved paths are equal and Conflict
    otherwise, with a detail that names the actual and the expected
    target; in particular it is Conflict when the link leads to a path
    that does not exist while [source_path] leads to one that does.  On
    the model of the file system, whose tests never raise, the method is
    [check_status]. *)
Theorem check_status_dangling {W E : Type} {Q : Queries W E} (w : W)
    (it : Item) :
  (∀ e, check_status_on w it = Raises e ↔
        lib_exists w (dest_path it) = Raises e
        ∨ ((∃ b, lib_exists w (dest_path it) = Returns b)
           ∧ lib_is_symlink w (dest_path it) = Raises e))
  ∧ (∀ b l, lib_exists w (dest_path it) = Returns b →
            lib_is_symlink w (dest_path it) = Returns l →
            ∃ it', check_status_on w it = Returns it'
                   ∧ (status it' = NOT_INSTALLED ↔ b = false ∧ l = false))
  ∧ (∀ b, lib_exists w (dest_path it) = Returns b →
          lib_is_symlink w (dest_path it) = Returns true →
          ∃ it',
            check_status_on w it = Returns it'
            ∧ status it' ≠ NOT_INSTALLED
            ∧ (∀ e, lib_resolve w (dest_path it) = Raises e →
                    status it' = CONFLICT
                    ∧ error_message it' = Some (lib_str e))
            ∧ (∀ q e, lib_resolve w (dest_path it) = Returns q →
                      lib_resolve w (source_path it) = Raises e →
                      status it' = CONFLICT
                      ∧ error_message it' = Some (lib_str e))
            ∧ (∀ q q', lib_resolve w (dest_path it) = Returns q →
                       lib_resolve w (source_path it) = Returns q' →
                       (q = q' →
                        status it' = INSTALLED ∧ error_message it' = None)
                       ∧ (q ≠ q' →
                          status it' = CONFLICT
                          ∧ error_message it'
                            = Some ("Symlink points to " +:+ path_str q
                                    +:+ ", expected " +:+ path_str q'))
                       ∧ (lib_exists w q = Returns false →
                          lib_exists w q' = Returns true →
                          status it' = CONFLICT
                          ∧ error_message it'
                            = Some ("Symlink points to " +:+ path_str q
                                    +:+ ", expected " +:+ path_str q'))))
  ∧ (∀ fs : FS,
       check_status_on (Q := model_queries) fs it
       = Returns (check_status fs it)).
Proof.
  split_and!.
  - intros e. apply check_status_on_raises.
  - intros b l Hb Hl. unfold check_status_on. rewrite Hb, Hl.
    destruct b, l; simpl; eexists; (split; [done|]).
    + split; [|by intros [? _]].
      by destruct (classify_link_status w it) as [-> | ->].
    + split; [done|by intros [? _]].
    + split; [|by intros [_ ?]].
      by destruct (classify_link_status w it) as [-> | ->].
    + done.
  - intros b Hb Hl. exists (classify_link w it).
    split; [by eapply check_status_on_link|].
    assert (∀ q q', lib_resolve w (dest_path it) = Returns q →
                    lib_resolve w (source_path it) = Returns q' → q ≠ q' →
                    status (classify_link w it) = CONFLICT
                    ∧ error_message (classify_link w it)
                      = Some ("Symlink points to " +:+ path_str q
                              +:+ ", expected " +:+ path_str q')) as Hne.
    { intros q q' Hq Hq' Hd. unfold classify_link. rewrite Hq, Hq'.
      by rewrite decide_False. }
    split_and!.
    + by destruct (classify_link_status w it) as [-> | ->].
    + intros e He. unfold classify_link. by rewrite He.
    + intros q e Hq He. unfold classify_link. by rewrite Hq, He.
    + intros q q' Hq Hq'. split_and!.
      * intros <-. unfold classify_link. rewrite Hq, Hq'.
        by rewrite decide_True.
      * by apply Hne.
      * intros Hm Hx. apply Hne; try done. intros <-. congruence.
  - intros fs. apply check_status_on_model.
Qed.

(** On the samples: a link to a file that is not there, next to an
    existing source, is a Conflict that names both paths. *)
Lemma check_status_dangling_witness :
  dangling Sample.stale (dest_path (Sample.foo NOT_INSTALLED false None))
  ∧ status (check_status Sample.stale (Sample.foo NOT_INSTALLED false None))
    = CONFLICT
  ∧ error_message
      (check_status Sample.stale (Sample.foo NOT_INSTALLED false None))
    = Some "Symlink points to /opt/superpowers/commands/old.md, expected /opt/superpowers/commands/foo.md".
Proof.
  split; [by vm_compute|].
  destruct (check_status_dangling (Q := model_queries) Sample.stale
              (Sample.foo NOT_INSTALLED false None)) as (_ & _ & Hl & Hm).
  destruct (Hl false) as (it' & Hit' & _ & _ & _ & Hq).
  { vm_compute. reflexivity. }
  { vm_compute. reflexivity. }
  rewrite Hm in Hit'. injection Hit' as <-.
  destruct (Hq (Sample.src /: "commands" /: "old.md")
              (Sample.src /: "commands" /: "foo.md")) as (_ & _ & Hc).
  { vm_compute. reflexivity. }
  { vm_compute. reflexivity. }
  destruct Hc as [Hst Hmsg].
  { vm_compute. reflexivity. }
  { vm_compute. reflexivity. }
  split; [exact Hst|]. rewrite Hmsg. vm_compute. reflexivity.
Defined.

(** ** 14. Frames and round trips *)

#[local] Transparent realpath link_rec MAXSYMLINKS.

Section Fuel.

Implicit Types (fs : FS) (p q t : path).

Lemma follow_mono fs (rec rec' : path → option path) :
  (∀ t q, rec t = Some q → rec' t = Some q) →
  ∀ p q, foldl (follow fs rec) (Some []) p = Some q →
         foldl (follow fs rec') (Some []) p = Some q.
Proof.
  intros Hrec p. induction p as [|c d IH] using rev_ind; intros q; [done|].
  rewrite !foldl_snoc.
  destruct (foldl (follow fs rec) (Some []) d) as [d'|]; [|done].
  rewrite (IH d' eq_refl). simpl.
  destruct (fs_lookup fs (d' ++ [c])) as [[| |]|]; auto.
Qed.

(** More fuel resolves what less fuel resolves, to the same path. *)
Lemma link_rec_realpath_fuel fs fuel t q :
  link_rec fuel fs t = Some q → realpath_fuel fuel fs t = Some q.
Proof.
  revert t q. induction fuel as [|n IH]; intros t q; [done|].
  intros H. change (realpath_fuel n fs t = Some q) in H.
  rewrite realpath_fuel_unfold in H |- *. revert H. apply follow_mono.
  intros t' q' H'. change (realpath_fuel n fs t' = Some q'). by apply IH.
Qed.

Lemma link_rec_realpath fs t q :
  link_rec MAXSYMLINKS fs t = Some q → realpath fs t = Some q.
Proof. apply link_rec_realpath_fuel. Qed.

End Fuel.

#[local] Opaque realpath link_rec MAXSYMLINKS.


Section Frames.

Implicit Types (fs : FS) (p q x y d : path) (it : Item).

(** Creating and then removing an object at a free place gives the tree
    back. *)
Lemma alter_at_create_remove x n on :
  lookup_at x on = None →
  alter_at x (λ _, None) (alter_at x (λ _, Some n) on) = on.
Proof.
  revert on. induction x as [|c r IH]; intros on; simpl; [by intros ->|].
  destruct on as [[| |es]|]; try done.
  intros Hl. f_equal. f_equal.
  rewrite partial_alter_partial_alter_eq. apply partial_alter_id.
  simpl. by rewrite IH.
Qed.

Lemma fs_create_remove x n fs :
  fs_lookup fs x = None → fs_remove x (fs_create x n fs) = fs.
Proof.
  destruct x as [|c r]; [done|]. unfold fs_lookup, fs_top. simpl.
  intros Hl. destruct fs as [es perm]. unfold fs_remove, fs_create. simpl.
  f_equal. rewrite partial_alter_partial_alter_eq. apply partial_alter_id.
  simpl. by rewrite alter_at_create_remove.
Qed.

Lemma preserved_refl fs : preserved fs fs.
Proof. by split. Qed.

Lemma preserved_is_Some fs fs' y :
  preserved fs fs' → is_Some (fs_lookup fs y) → is_Some (fs_lookup fs' y).
Proof.
  intros [Hk _] Hy. specialize (Hk y Hy).
  destruct Hy as [n Hn]. rewrite Hn in Hk.
  destruct (fs_lookup fs' y); [eauto|done].
Qed.

Lemma preserved_trans fs fs' fs'' :
  preserved fs fs' → preserved fs' fs'' → preserved fs fs''.
Proof.
  intros H1 H2. pose proof H1 as [Hk1 Hr1]. pose proof H2 as [Hk2 Hr2]. split.
  - intros y Hy. pose proof (preserved_is_Some fs fs' y H1 Hy) as Hy'.
    pose proof (Hk1 y Hy) as E1. pose proof (Hk2 y Hy') as E2. congruence.
  - intros p q Hp Hq. apply Hr2.
    + exact (Hr1 p q Hp Hq).
    + exact (preserved_is_Some fs fs' q H1 Hq).
Qed.

(** Whatever is put at a free place, what was there is preserved. *)
Lemma preserved_create x n fs :
  x ≠ [] → fs_lookup fs x = None → preserved fs (fs_create x n fs).
Proof.
  intros Hx Habs. split.
  - intros y Hy. apply fs_alter_kind; [done|]. by eapply absent_not_prefix.
  - intros p q Hp Hq. by apply realpath_create.
Qed.

Lemma preserved_lstat fs fs' p :
  preserved fs fs' → is_Some (lstat fs p) →
  kind_of <$> lstat fs' p = kind_of <$> lstat fs p.
Proof.
  intros [Hk Hr] Hs. destruct (decide (p = [])) as [->|Hp]; [done|].
  rewrite (path_snoc p Hp) in *. rewrite !lstat_snoc in *.
  destruct (realpath fs (parent p)) as [d'|] eqn:Hd; [|by destruct Hs].
  rewrite (Hr _ _ Hd); [by apply Hk|].
  by apply fs_lookup_snoc_dir in Hs as [es ->].
Qed.

Lemma preserved_present fs fs' p :
  preserved fs fs' → present fs p → present fs' p.
Proof.
  intros Hpre Hp%present_is_Some. apply present_is_Some.
  pose proof (preserved_lstat _ _ _ Hpre Hp) as Hk.
  destruct Hp as [n Hn]. rewrite Hn in Hk.
  destruct (lstat fs' p); [eauto|done].
Qed.

Lemma os_mkdir_preserved fs p fs' : os_mkdir fs p = Ok fs' → preserved fs fs'.
Proof.
  intros (d & c & d' & es & -> & Hr & Hes & Habs & ->)%os_mkdir_Ok.
  apply preserved_create; [by destruct d'|done].
Qed.

Lemma mkdir_leaf_preserved ok fs p fs' o :
  mkdir_leaf ok fs p = (fs', o) → preserved fs fs'.
Proof.
  unfold mkdir_leaf. destruct (os_mkdir fs p) as [fs1|e] eqn:Hm.
  - intros [= <- _]. by eapply os_mkdir_preserved.
  - destruct e; try (destruct (ok && is_dir fs p));
      intros [= <- _]; apply preserved_refl.
Qed.

Lemma mkdir_rev_preserved fs rp fs' o :
  mkdir_rev fs rp = (fs', o) → preserved fs fs'.
Proof.
  revert fs fs' o. induction rp as [|c rd IH]; intros fs fs' o; simpl.
  { destruct (is_dir fs []); intros [= <- _]; apply preserved_refl. }
  destruct (os_mkdir fs (rev rd ++ [c])) as [fs1|e] eqn:Hm.
  { intros [= <- _]. by eapply os_mkdir_preserved. }
  destruct e; try (destruct (is_dir fs (rev rd ++ [c]));
                   intros [= <- _]; apply preserved_refl).
  destruct (mkdir_rev fs rd) as [fs1 [e|]] eqn:Hrec.
  - intros [= <- _]. by eapply IH.
  - intros Hleaf%mkdir_leaf_preserved. eapply preserved_trans; [|done].
    by eapply IH.
Qed.

Lemma mkdir_preserved fs p fs' o : mkdir fs p = (fs', o) → preserved fs fs'.
Proof. apply mkdir_rev_preserved. Qed.

Lemma symlink_to_preserved fs p t fs' :
  symlink_to fs p t = Ok fs' → preserved fs fs'.
Proof.
  intros (d & c & d' & es & -> & Hr & Hes & Habs & _ & ->)%symlink_to_Ok.
  apply preserved_create; [by destruct d'|done].
Qed.

(** What a successful install went through. *)
Lemma install_success fs it dest_dir :
  success (snd (_install_item fs it dest_dir)) = true →
  ∃ fs1, mkdir fs dest_dir = (fs1, None)
         ∧ ¬ present fs1 (dest_path it)
         ∧ symlink_to fs1 (dest_path it) (source_path it)
           = Ok (fst (_install_item fs it dest_dir)).
Proof.
  unfold _install_item.
  destruct (mkdir fs dest_dir) as [fs1 [e|]] eqn:Hm; [done|].
  destruct (path_exists fs1 (dest_path it) || is_symlink fs1 (dest_path it))
    eqn:Hp; [done|].
  destruct (symlink_to fs1 (dest_path it) (source_path it)) as [fs2|e] eqn:Hl;
    [|done].
  intros _. exists fs1. split_and!; try done.
  apply not_present. by apply orb_false_elim in Hp.
Qed.

Lemma install_preserved fs it dest_dir :
  preserved fs (fst (_install_item fs it dest_dir)).
Proof.
  unfold _install_item.
  destruct (mkdir fs dest_dir) as [fs1 [e|]] eqn:Hm;
    [by eapply mkdir_preserved|].
  apply mkdir_preserved in Hm.
  destruct (path_exists fs1 (dest_path it) || is_symlink fs1 (dest_path it));
    [done|].
  destruct (symlink_to fs1 (dest_path it) (source_path it)) as [fs2|e] eqn:Hl;
    [|done].
  eapply preserved_trans; [done|]. by eapply symlink_to_preserved.
Qed.

(** A successful uninstall removed one object, a symbolic link. *)
Lemma uninstall_success fs it :
  success (snd (_uninstall_item fs it)) = true →
  ∃ x t, fs_lookup fs x = Some (Link t)
         ∧ lstat fs (dest_path it) = Some (Link t)
         ∧ fst (_uninstall_item fs it) = fs_remove x fs
         ∧ x ≠ [].
Proof.
  intros Hs. destruct (uninstall_cases fs it) as [[_ Hf]|(Hi & Hu & _)];
    [congruence|].
  destruct Hi as [[t Ht]%is_symlink_lstat _].
  apply unlink_Ok in Hu as (d & c & d' & n & Hp & Hr & Hn & _ & ->).
  rewrite Hp, lstat_snoc, Hr, Hn in Ht. injection Ht as ->.
  exists (d' ++ [c]), t. split_and!; try done.
  - by rewrite Hp, lstat_snoc, Hr.
  - by destruct d'.
Qed.

Lemma remove_link_kind fs x t y :
  x ≠ [] → fs_lookup fs x = Some (Link t) → y ≠ x →
  kind_of <$> fs_lookup (fs_remove x fs) y = kind_of <$> fs_lookup fs y.
Proof.
  intros Hx Hl Hy. destruct (decide (x `prefix_of` y)) as [[k ->]|Hpre].
  - rewrite fs_remove_below; [|done|by exists k].
    destruct k as [|c k]; [by rewrite app_nil_r in Hy|].
    unfold fs_lookup in *. by rewrite lookup_at_app, Hl.
  - by apply fs_alter_kind.
Qed.

Lemma non_links_kept_refl fs : non_links_kept fs fs.
Proof. intros y n Hn _. by rewrite Hn. Qed.

Lemma non_links_kept_trans fs fs' fs'' :
  non_links_kept fs fs' → non_links_kept fs' fs'' → non_links_kept fs fs''.
Proof.
  intros H1 H2 y n Hn Hnl. specialize (H1 y n Hn Hnl).
  destruct (fs_lookup fs' y) as [n'|] eqn:Hn'; [|done].
  injection H1 as H1. rewrite <-H1. apply H2; [done|].
  intros t ->. destruct n; try done. by destruct (Hnl target).
Qed.

Lemma preserved_non_links fs fs' : preserved fs fs' → non_links_kept fs fs'.
Proof.
  intros [Hk _] y n Hn _. rewrite Hk by eauto. by rewrite Hn.
Qed.

Lemma uninstall_non_links fs it :
  non_links_kept fs (fst (_uninstall_item fs it)).
Proof.
  destruct (success (snd (_uninstall_item fs it))) eqn:Hs.
  - destruct (uninstall_success _ _ Hs) as (x & t & Hx & _ & -> & Hne).
    intros y n Hn Hnl. rewrite (remove_link_kind _ _ t); try done.
    + by rewrite Hn.
    + intros ->. rewrite Hx in Hn. injection Hn as <-. by destruct (Hnl t).
  - destruct (uninstall_cases fs it) as [[-> _]|(_ & _ & ?)]; [|congruence].
    apply non_links_kept_refl.
Qed.

End Frames.

Section RoundTrips.

Implicit Types (fs : FS) (p q x y d : path) (it : Item).

(** A link resolves to what its target resolves to. *)
Lemma link_resolves fs p t q :
  lstat fs p = Some (Link t) → resolve fs p = Ok q → resolve fs t = Ok q.
Proof.
  intros Hl. destruct (decide (p = [])) as [->|Hp]; [done|].
  rewrite (path_snoc p Hp) in *. rewrite lstat_snoc in Hl.
  unfold resolve. rewrite realpath_snoc.
  destruct (realpath fs (parent p)) as [d'|]; [|done]. simpl. rewrite Hl.
  destruct (link_rec MAXSYMLINKS fs t) as [q'|] eqn:Hq; [|done].
  intros [= ->]. by rewrite (link_rec_realpath _ _ _ Hq).
Qed.

Lemma mkdir_placed_free fs dest_dir n fs1 :
  mkdir fs dest_dir = (fs1, None) → ¬ present fs (dest_dir /: n) →
  ¬ present fs1 (dest_dir /: n).
Proof.
  intros Hm Hfree.
  destruct (stat fs dest_dir) as [[| |es]|] eqn:Hst.
  - exfalso. pose proof (mkdir_is_dir _ _ _ Hm) as Hd.
    apply mkdir_preserved in Hm as [Hk Hr]. unfold is_dir, stat in *.
    destruct (realpath fs dest_dir) as [q|] eqn:Hq; [|done].
    rewrite (Hr _ _ Hq) in Hd by (rewrite Hst; eauto).
    specialize (Hk q). rewrite Hst in Hk.
    destruct (fs_lookup fs1 q) as [[| |]|]; try done.
    by specialize (Hk ltac:(eauto)).
  - exfalso. unfold stat in Hst.
    destruct (realpath fs dest_dir) as [q|] eqn:Hq; [|done].
    by eapply realpath_not_link.
  - assert (is_dir fs dest_dir = true) as Hd by (unfold is_dir; by rewrite Hst).
    rewrite (mkdir_noop _ _ Hd) in Hm. by injection Hm as <-.
  - unfold mkdir in Hm. rewrite <-(rev_involutive dest_dir) in Hst.
    destruct (mkdir_rev_fresh _ _ _ Hst Hm) as (q & Hq & Hempty).
    rewrite rev_involutive in Hq.
    intros Hp%present_is_Some. unfold joinpath in Hp.
    rewrite lstat_snoc, Hq in Hp. unfold fs_lookup in *.
    rewrite lookup_at_app, Hempty in Hp. simpl in Hp.
    rewrite lookup_empty in Hp. by destruct Hp.
Qed.

End RoundTrips.

Section BatchFrames.

Implicit Types (fs : FS) (it : Item) (dest_dir claude_dir : path).

Lemma apply_item_non_links fs dest_dir it :
  non_links_kept fs (fst (apply_item fs dest_dir it)).
Proof.
  unfold apply_item. repeat case_match; simpl; subst;
    try apply non_links_kept_refl.
  - match goal with H : _install_item _ _ _ = _ |- _ =>
      apply (f_equal fst) in H; simpl in H; subst end.
    apply preserved_non_links, install_preserved.
  - match goal with H : _uninstall_item _ _ = _ |- _ =>
      apply (f_equal fst) in H; simpl in H; subst end.
    apply uninstall_non_links.
Qed.

Lemma apply_items_non_links dest_dir its :
  ∀ fs rs, non_links_kept fs (fst (apply_items dest_dir (fs, rs) its)).
Proof.
  induction its as [|it its IH]; intros fs rs.
  { apply non_links_kept_refl. }
  rewrite apply_items_cons. eapply non_links_kept_trans; [|apply IH].
  apply apply_item_non_links.
Qed.

Lemma apply_categories_non_links claude_dir cs :
  ∀ fs rs, non_links_kept fs (fst (apply_categories claude_dir (fs, rs) cs)).
Proof.
  induction cs as [|c cs IH]; intros fs rs.
  { apply non_links_kept_refl. }
  rewrite apply_categories_cons.
  destruct (dest_dir_of claude_dir c) as [d|]; [|apply IH].
  pose proof (apply_items_non_links d (items c) fs rs) as H1.
  destruct (apply_items d (fs, rs) (items c)) as [fs1 rs1]. simpl in H1.
  eapply non_links_kept_trans; [exact H1|apply IH].
Qed.

End BatchFrames.

(** ** 15. Further properties of install and uninstall *)

(** X1. After a successful [_install_item], [check_status] on the new
    file system reports Installed, provided the new link resolves (it
    does not run into a loop). *)
Theorem install_then_installed (fs : FS) (it : Item) (dest_dir q : path) :
  success (snd (_install_item fs it dest_dir)) = true →
  resolve (fst (_install_item fs it dest_dir)) (dest_path it) = Ok q →
  status (check_status (fst (_install_item fs it dest_dir)) it) = INSTALLED.
Proof.
  intros (fs1 & _ & _ & Hl)%install_success Hq.
  apply symlink_to_lstat in Hl. apply check_status_installed. split.
  - apply is_symlink_lstat. eauto.
  - exists q. split; [done|]. by eapply link_resolves.
Qed.

Lemma install_then_installed_witness :
  status (check_status
            (fst (_install_item Sample.fresh
                    (Sample.foo NOT_INSTALLED true None)
                    (Sample.claude /: "commands")))
            (Sample.foo NOT_INSTALLED true None)) = INSTALLED.
Proof.
  apply (install_then_installed Sample.fresh
           (Sample.foo NOT_INSTALLED true None) (Sample.claude /: "commands")
           (Sample.src /: "commands" /: "foo.md")); by vm_compute.
Defined.

(** X2. After a successful [_uninstall_item], [check_status] on the new
    file system reports NotInstalled without a detail. *)
Theorem uninstall_then_not_installed (fs : FS) (it : Item) :
  success (snd (_uninstall_item fs it)) = true →
  status (check_status (fst (_uninstall_item fs it)) it) = NOT_INSTALLED
  ∧ error_message (check_status (fst (_uninstall_item fs it)) it) = None.
Proof.
  intros Hs. destruct (uninstall_cases fs it) as [[_ Hf]|(_ & Hu & _)];
    [congruence|].
  apply unlink_lstat, absent_lstat in Hu.
  unfold check_status. apply orb_false_elim in Hu as [-> ->]. done.
Qed.

Lemma uninstall_then_not_installed_witness :
  status (check_status
            (fst (_uninstall_item Sample.linked
                    (Sample.foo INSTALLED false None)))
            (Sample.foo INSTALLED false None)) = NOT_INSTALLED.
Proof.
  apply (uninstall_then_not_installed Sample.linked
           (Sample.foo INSTALLED false None)).
  by vm_compute.
Defined.

(** X3. Installing an item and then uninstalling it, both with success,
    gives back the file system as [mkdir] left it: exactly the original
    one when the category directory was already there. *)
Theorem install_uninstall_round_trip (fs : FS) (it : Item) (dest_dir : path) :
  success (snd (_install_item fs it dest_dir)) = true →
  success (snd (_uninstall_item (fst (_install_item fs it dest_dir)) it))
  = true →
  fst (_uninstall_item (fst (_install_item fs it dest_dir)) it)
  = fst (mkdir fs dest_dir)
  ∧ (is_dir fs dest_dir = true →
     fst (_uninstall_item (fst (_install_item fs it dest_dir)) it) = fs).
Proof.
  intros (fs1 & Hm & _ & Hl)%install_success Hs.
  assert (fst (_uninstall_item (fst (_install_item fs it dest_dir)) it) = fs1)
    as ->.
  { destruct (uninstall_cases (fst (_install_item fs it dest_dir)) it)
      as [[_ Hf]|(_ & Hu & _)]; [congruence|].
    revert Hu. generalize (fst (_uninstall_item
                                  (fst (_install_item fs it dest_dir)) it)).
    revert Hl. generalize (fst (_install_item fs it dest_dir)).
    intros fs2 Hl fs3 Hu.
    apply symlink_to_Ok
      in Hl as (d & c & d' & es & Hp & Hr & Hes & Habs & _ & ->).
    apply unlink_Ok in Hu as (d2 & c2 & d2' & n & Hp2 & Hr2 & _ & _ & ->).
    rewrite Hp in Hp2. apply app_inj_tail in Hp2 as [<- <-].
    assert (d' ++ [c] ≠ []) as Hne by (by destruct d').
    rewrite (realpath_create (d' ++ [c]) _ fs1 d d' Hne Habs Hr) in Hr2
      by (rewrite Hes; eauto).
    injection Hr2 as <-. by apply fs_create_remove. }
  rewrite Hm. split; [done|].
  intros Hd. rewrite (mkdir_noop _ _ Hd) in Hm. by injection Hm.
Qed.

Lemma install_uninstall_round_trip_witness :
  fst (_uninstall_item
         (fst (_install_item Sample.blocked
                 (Sample.gone NOT_INSTALLED true None)
                 (Sample.claude /: "commands")))
         (Sample.gone NOT_INSTALLED true None))
  = Sample.blocked.
Proof.
  apply (install_uninstall_round_trip Sample.blocked
           (Sample.gone NOT_INSTALLED true None)
           (Sample.claude /: "commands")); by vm_compute.
Defined.

(** X4. For any library: [_uninstall_item] reports success only when
    [unlink()] returned and, if [check_status] returns on the same
    world, only for an item it classifies Installed; and for an item
    [check_status] classifies Installed the two checks of
    [_uninstall_item] pass, so that its outcome is the one of
    [unlink()]: a success when it returns, a failure with the error text
    and nothing removed when it raises.  On the model of the file system
    the method is [_uninstall_item]. *)
Theorem uninstall_iff_installed {W E : Type} {L : Library W E} (w : W)
    (it : Item) :
  (success (snd (_uninstall_item_on w it)) = true →
   lib_unlink w (dest_path it) = Returns (fst (_uninstall_item_on w it))
   ∧ ∀ it', check_status_on w it = Returns it' → status it' = INSTALLED)
  ∧ (∀ it', check_status_on w it = Returns it' → status it' = INSTALLED →
       _uninstall_item_on w it
       = match lib_unlink w (dest_path it) with
         | Returns w' =>
             (w', mkResult it uninstall true
                    ("Removed symlink: " +:+ path_str (dest_path it)))
         | Raises e => (w, mkResult it uninstall false (lib_str e))
         end)
  ∧ (∀ fs : FS,
       _uninstall_item_on (L := model) fs it = _uninstall_item fs it).
Proof.
  split_and!; [| |intros fs; apply uninstall_item_on_model];
    unfold _uninstall_item_on, check_status_on, classify_link.
  - destruct (lib_is_symlink w (dest_path it)) as [[|]|e1]; try done.
    destruct (lib_resolve w (dest_path it)) as [q|e2]; try done.
    destruct (lib_resolve w (source_path it)) as [q'|e3]; try done.
    destruct (decide (q = q')) as [<-|Hq];
      [rewrite decide_False by (by intros ?)|by rewrite decide_True].
    destruct (lib_unlink w (dest_path it)) as [w'|e4]; [|done].
    intros _. split; [done|].
    destruct (lib_exists w (dest_path it)) as [[|]|e5]; simpl; try done.
    all: by intros it' [= <-].
  - intros it'.
    destruct (lib_exists w (dest_path it)) as [[|]|e5]; simpl; try done.
    all: destruct (lib_is_symlink w (dest_path it)) as [[|]|e1]; try done.
    all: try (by intros [= <-]).
    all: destruct (lib_resolve w (dest_path it)) as [q|e2];
      try (by intros [= <-]).
    all: destruct (lib_resolve w (source_path it)) as [q'|e3];
      try (by intros [= <-]).
    all: destruct (decide (q = q')) as [<-|Hne]; try (by intros [= <-]).
    all: intros _ _; by rewrite decide_False by (by intros ?).
Qed.

(** On the samples: [commands/foo.md] is installed, and on the model,
    where the removal of a link is never refused, the uninstall
    succeeds. *)
Lemma uninstall_iff_installed_witness :
  snd (_uninstall_item_on (L := model) Sample.linked
         (Sample.foo INSTALLED false None))
  = mkResult (Sample.foo INSTALLED false None) uninstall true
      "Removed symlink: /home/u/.claude/commands/foo.md".
Proof.
  rewrite (proj1 (proj2 (uninstall_iff_installed (L := model) Sample.linked
                           (Sample.foo INSTALLED false None)))
             (check_status Sample.linked (Sample.foo INSTALLED false None))).
  - vm_compute. reflexivity.
  - apply check_status_on_model.
  - vm_compute. reflexivity.
Defined.

(** X5. For any library: [_install_item] reports success only when
    [check_status], on the world [mkdir] left, classifies the item
    NotInstalled; and when it does, the collision test of
    [_install_item] passes, so that its outcome is the one of
    [symlink_to]: a success when it returns, a failure with the error
    text when it raises.  On the model of the file system, a successful
    install was of an item that [check_status] classifies NotInstalled
    on the file system as it was before [mkdir]. *)
Theorem install_iff_not_installed {W E : Type} {L : Library W E} (w : W)
    (it : Item) (dest_dir : path) :
  (success (snd (_install_item_on w it dest_dir)) = true →
   ∃ w1, lib_mkdir w dest_dir = (w1, None)
         ∧ check_status_on w1 it = Returns (set_status NOT_INSTALLED None it))
  ∧ (∀ w1 it', lib_mkdir w dest_dir = (w1, None) →
       check_status_on w1 it = Returns it' → status it' = NOT_INSTALLED →
       _install_item_on w it dest_dir
       = match lib_symlink_to w1 (dest_path it) (source_path it) with
         | Returns w2 =>
             (w2, mkResult it install true
                    ("Created symlink: " +:+ path_str (dest_path it)
                     +:+ " -> " +:+ path_str (source_path it)))
         | Raises e => (w1, mkResult it install false (lib_str e))
         end)
  ∧ (∀ fs : FS,
       success (snd (_install_item fs it dest_dir)) = true →
       status (check_status fs it) = NOT_INSTALLED).
Proof.
  split_and!.
  - unfold _install_item_on.
    destruct (lib_mkdir w dest_dir) as [w1 [e|]]; [done|].
    destruct (lib_exists w1 (dest_path it)) as [[|]|e1] eqn:He; try done.
    destruct (lib_is_symlink w1 (dest_path it)) as [[|]|e2] eqn:Hl; try done.
    intros _. exists w1. split; [done|]. by apply check_status_on_absent.
  - intros w1 it' Hm. unfold _install_item_on, check_status_on. rewrite Hm.
    destruct (lib_exists w1 (dest_path it)) as [[|]|e1]; simpl; try done.
    all: destruct (lib_is_symlink w1 (dest_path it)) as [[|]|e2]; try done.
    all: try (by intros [= <-]).
    all: intros [= <-]; by destruct (classify_link_status w1 it) as [-> | ->].
  - intros fs (fs1 & Hm & Hfree & _)%install_success.
    apply check_status_not_installed. intros Hp. apply Hfree.
    eapply preserved_present; [|done]. by eapply mkdir_preserved.
Qed.

(** On the samples: a successful install on the fresh file system. *)
Lemma install_iff_not_installed_witness :
  status (check_status Sample.fresh (Sample.foo NOT_INSTALLED true None))
  = NOT_INSTALLED.
Proof.
  apply (proj2 (proj2 (install_iff_not_installed (L := model) Sample.fresh
                         (Sample.foo NOT_INSTALLED true None)
                         (Sample.claude /: "commands")))).
  vm_compute. reflexivity.
Defined.

(** X6. Whatever its outcome, [_install_item] removes and replaces
    nothing: every object of the file system keeps its type and its
    contents, and [lstat] finds at every path where something was what it
    found before. *)
Theorem install_preserves_existing (fs : FS) (it : Item) (dest_dir : path) :
  preserved fs (fst (_install_item fs it dest_dir))
  ∧ ∀ p, is_Some (lstat fs p) →
         kind_of <$> lstat (fst (_install_item fs it dest_dir)) p
         = kind_of <$> lstat fs p.
Proof.
  split; [apply install_preserved|].
  intros p. apply preserved_lstat, install_preserved.
Qed.

Lemma install_preserves_existing_witness :
  kind_of <$> lstat (fst (_install_item Sample.blocked
                            (Sample.foo NOT_INSTALLED true None)
                            (Sample.claude /: "commands")))
                (Sample.claude /: "commands" /: "foo.md")
  = Some (KFile "mine").
Proof.
  rewrite (proj2 (install_preserves_existing Sample.blocked
                    (Sample.foo NOT_INSTALLED true None)
                    (Sample.claude /: "commands")));
    [by vm_compute|vm_compute; eauto].
Defined.

(** X7. A successful [_uninstall_item] removes exactly one object, the
    symbolic link [dest_path] names: the entry called as [dest_path] is,
    in the directory its parent resolves to.  That entry is a link
    before and nothing is at [dest_path] after; every other object keeps
    its type and contents, in particular the object [source_path]
    resolves to. *)
Theorem uninstall_removes_one_link (fs : FS) (it : Item) :
  success (snd (_uninstall_item fs it)) = true →
  ∃ d t,
    realpath fs (parent (dest_path it)) = Some d
    ∧ fs_lookup fs (d ++ [basename (dest_path it)]) = Some (Link t)
    ∧ lstat fs (dest_path it) = Some (Link t)
    ∧ fst (_uninstall_item fs it)
      = fs_remove (d ++ [basename (dest_path it)]) fs
    ∧ lstat (fst (_uninstall_item fs it)) (dest_path it) = None
    ∧ (∀ y, y ≠ d ++ [basename (dest_path it)] →
            kind_of <$> fs_lookup (fst (_uninstall_item fs it)) y
            = kind_of <$> fs_lookup fs y)
    ∧ (∀ q, resolve fs (source_path it) = Ok q →
            kind_of <$> fs_lookup (fst (_uninstall_item fs it)) q
            = kind_of <$> fs_lookup fs q).
Proof.
  intros Hs. destruct (uninstall_cases fs it) as [[_ Hf]|(Hi & Hu & _)];
    [congruence|].
  destruct Hi as [[t Ht]%is_symlink_lstat _].
  pose proof (unlink_lstat _ _ _ Hu) as Hgone.
  apply unlink_Ok in Hu as (d0 & c & d & n & Hp & Hr & Hn & _ & Hfs).
  rewrite Hp in *. rewrite parent_snoc, basename_snoc.
  rewrite lstat_snoc, Hr, Hn in Ht. injection Ht as ->.
  assert (d ++ [c] ≠ []) as Hne by (by destruct d).
  exists d, t. split_and!; try done.
  - by rewrite lstat_snoc, Hr.
  - intros y Hy. rewrite Hfs. by eapply remove_link_kind.
  - intros q Hq. rewrite Hfs. eapply remove_link_kind; try done.
    intros ->. unfold resolve in Hq.
    destruct (realpath fs (source_path it)) as [q'|] eqn:Hr'; [|done].
    injection Hq as ->. by eapply realpath_not_link.
Qed.

Lemma uninstall_removes_one_link_witness :
  lstat (fst (_uninstall_item Sample.linked
                (Sample.foo INSTALLED false None)))
    (Sample.claude /: "commands" /: "foo.md") = None
  ∧ kind_of <$> fs_lookup (fst (_uninstall_item Sample.linked
                                  (Sample.foo INSTALLED false None)))
                  (Sample.src /: "commands" /: "foo.md")
    = Some (KFile "foo").
Proof.
  destruct (uninstall_removes_one_link Sample.linked
              (Sample.foo INSTALLED false None))
    as (d & t & _ & _ & _ & _ & Hgone & _ & H); [vm_compute; reflexivity|].
  split; [exact Hgone|].
  rewrite (H (Sample.src /: "commands" /: "foo.md"));
    vm_compute; reflexivity.
Defined.

(** X8. [apply_changes] never removes or replaces a regular file or a
    directory: whatever the categories and the selections, every object
    that is not a symbolic link is still there afterwards with its type
    and its contents. *)
Theorem apply_changes_keeps_non_links (fs : FS) (claude_dir : path)
    (categories : list Category) :
  non_links_kept fs (fst (fst (apply_changes fs claude_dir categories))).
Proof.
  unfold apply_changes.
  pose proof (apply_categories_non_links claude_dir categories fs []) as H.
  by destruct (apply_categories claude_dir (fs, []) categories).
Qed.

Lemma apply_changes_keeps_non_links_witness :
  kind_of <$> fs_lookup
                (fst (fst (apply_changes Sample.blocked Sample.claude
                             [mkCategory "commands"
                                [Sample.foo CONFLICT true None;
                                 Sample.gone NOT_INSTALLED true None]])))
                (Sample.claude /: "commands" /: "foo.md")
  = Some (kind_of (File "mine")).
Proof.
  apply (apply_changes_keeps_non_links Sample.blocked Sample.claude);
    by vm_compute.
Defined.

(** ** 16. The refresh and the settled state *)

Section Settled.

Implicit Types (fs : FS) (it : Item) (c : Category)
  (claude_dir dest_dir : path).

Lemma dest_dir_of_known claude_dir c :
  known c ↔ ∃ d, dest_dir_of claude_dir c = Some d.
Proof.
  unfold known, dest_dir_of. repeat case_decide; split; eauto; try tauto.
  intros [d ?]. done.
Qed.

(** [check_status] assigns the two fields it computes and nothing else;
    what it computes depends on the two paths only. *)
Lemma check_status_set fs it :
  check_status fs it
  = set_status (status (check_status fs it))
               (error_message (check_status fs it)) it.
Proof. unfold check_status. by repeat (case_match; simpl). Qed.

Lemma check_status_detail_paths fs (a b : Item) :
  dest_path a = dest_path b → source_path a = source_path b →
  error_message (check_status fs a) = error_message (check_status fs b).
Proof.
  intros Hd Hs. unfold check_status. rewrite Hd, Hs.
  by repeat (case_match; simpl).
Qed.

Lemma check_status_idem fs it :
  check_status fs (check_status fs it) = check_status fs it.
Proof.
  destruct (check_status_fields fs it) as (_ & _ & Hs & Hd & _).
  rewrite (check_status_set fs (check_status fs it)).
  rewrite (check_status_paths fs (check_status fs it) it Hd Hs).
  rewrite (check_status_detail_paths fs (check_status fs it) it Hd Hs).
  pose proof (check_status_set fs it) as E.
  set (s := status (check_status fs it)) in *.
  set (e := error_message (check_status fs it)) in *.
  clearbody s e. by rewrite E.
Qed.

Lemma check_status_set_selected fs b it :
  check_status fs (set_selected b it) = set_selected b (check_status fs it).
Proof. unfold check_status. by repeat (case_match; simpl in *). Qed.

Lemma refresh_item_settled fs it : settled fs (refresh_item fs it).
Proof.
  unfold settled, refresh_item.
  rewrite check_status_set_selected, check_status_idem. by destruct (check_status fs it).
Qed.

Lemma discovered_settled fs nm cat src dst :
  settled fs (discovered fs nm cat src dst).
Proof. apply refresh_item_settled. Qed.

Lemma settled_selected fs it :
  settled fs it →
  selected it = bool_decide (status it = INSTALLED)
  ∧ status it = status (check_status fs it)
  ∧ error_message it = error_message (check_status fs it).
Proof.
  unfold settled, refresh_item. intros H.
  pose proof (f_equal selected H) as Hsel.
  pose proof (f_equal status H) as Hst.
  pose proof (f_equal error_message H) as Herr.
  simpl in *. by rewrite <-Hsel, Hst, Herr.
Qed.

(** A settled item is satisfied unless it is a Conflict, and then it is
    not selected. *)
Lemma apply_item_settled fs dest_dir it :
  settled fs it →
  apply_item fs dest_dir it
  = (fs, if decide (status it = CONFLICT) then [refusal it] else []).
Proof.
  intros (Hsel & _)%settled_selected. unfold apply_item, refusal.
  rewrite Hsel. by destruct (status it).
Qed.

Lemma apply_items_settled dest_dir fs its :
  Forall (settled fs) its →
  ∀ rs, apply_items dest_dir (fs, rs) its
        = (fs, rs ++ (refusal <$> filter (λ it, status it = CONFLICT) its)).
Proof.
  induction 1 as [|it its Hs _ IH]; intros rs.
  { by rewrite app_nil_r. }
  rewrite apply_items_cons, (apply_item_settled _ _ _ Hs). simpl.
  rewrite IH, filter_cons. case_decide; [|by rewrite app_nil_r].
  by rewrite fmap_cons, <-app_assoc.
Qed.

Lemma apply_categories_settled claude_dir fs cs :
  Forall (λ c, Forall (settled fs) (items c)) cs →
  ∀ rs, apply_categories claude_dir (fs, rs) cs
        = (fs, rs ++ (refusal <$> filter (λ it, status it = CONFLICT)
                                    (concat (items <$> filter known cs)))).
Proof.
  induction 1 as [|c cs Hs _ IH]; intros rs.
  { by rewrite app_nil_r. }
  rewrite apply_categories_cons, filter_cons.
  destruct (decide (known c)) as [Hk|Hk].
  - pose proof Hk as [d Hd]%(dest_dir_of_known claude_dir). rewrite Hd.
    rewrite (apply_items_settled _ _ _ Hs), IH.
    rewrite fmap_cons. simpl. by rewrite filter_app, fmap_app, app_assoc.
  - destruct (dest_dir_of claude_dir c) as [d|] eqn:Hd; [|apply IH].
    destruct Hk. apply (dest_dir_of_known claude_dir). eauto.
Qed.

Lemma refresh_settled fs cs :
  Forall (λ c, Forall (settled fs) (items c)) (refresh fs cs).
Proof.
  unfold refresh. apply Forall_fmap, Forall_forall. intros c _. simpl.
  apply Forall_fmap, Forall_forall. intros it _. apply refresh_item_settled.
Qed.

Lemma refresh_of_settled fs cs :
  Forall (λ c, Forall (settled fs) (items c)) cs → refresh fs cs = cs.
Proof.
  induction 1 as [|c cs Hs _ IH]; [done|].
  unfold refresh in *. rewrite fmap_cons, IH. f_equal.
  destruct c as [nm its]. simpl in *. f_equal.
  induction Hs as [|it its Hit _ IHits]; [done|].
  by rewrite fmap_cons, IHits, Hit.
Qed.

Lemma discover_items_settled fs source_dir claude_dir cats :
  discover_items fs source_dir claude_dir = Ok cats →
  Forall (λ c, Forall (settled fs) (items c)) cats.
Proof.
  intros Hok. apply Forall_forall. intros c Hc.
  destruct (discover_items_elem _ _ _ _ _ Hok Hc)
    as [(cat & Hcat & Hmd)|Hsk].
  - destruct (discover_md_cases fs source_dir claude_dir cat)
      as [E|(its & _ & _ & Hits & E)]; rewrite E in Hmd; [done|].
    injection Hmd as <-. simpl. rewrite Hits.
    apply Forall_fmap, Forall_forall. intros f _. apply discovered_settled.
  - destruct (discover_skills_cases fs source_dir claude_dir)
      as [(e & E & _)|[E|(its & ds & _ & _ & _ & Hits & E)]];
      rewrite E in Hsk; try done.
    injection Hsk as <-. simpl. rewrite Hits.
    apply Forall_fmap, Forall_forall. intros d _. apply discovered_settled.
Qed.

End Settled.

Section Pending.

Implicit Types (fs : FS) (it : Item) (c : Category)
  (claude_dir dest_dir : path).

(** Every item that is not satisfied gets exactly one result, an install
    when it is selected and an uninstall when it is not. *)
Lemma apply_item_pending fs dest_dir it :
  item <$> snd (apply_item fs dest_dir it)
  = (if decide (satisfied it) then [] else [it])
  ∧ Forall (λ r, action r = if selected (item r) then install else uninstall)
           (snd (apply_item fs dest_dir it)).
Proof.
  destruct (decide (satisfied it)) as [Hs|Hs].
  { by rewrite (apply_item_satisfied _ _ _ Hs). }
  pose proof (install_item_of fs it dest_dir) as [Hi Ha].
  pose proof (uninstall_item_of fs it) as [Hu Hb].
  assert (∀ r, item r = it →
               action r = (if selected it then install else uninstall) →
               item <$> [r] = [it]
               ∧ Forall (λ r, action r
                              = if selected (item r) then install
                                else uninstall) [r]) as Hone.
  { intros r Hr Hact. split; [by rewrite <-Hr|].
    constructor; [by rewrite Hr|done]. }
  unfold apply_item, satisfied in *.
  destruct (selected it) eqn:Hsel, (status it) eqn:Hst; simpl in *;
    try (destruct Hs; by eauto).
  all: try destruct (_install_item fs it dest_dir).
  all: try destruct (_uninstall_item fs it).
  all: simpl in *.
  all: match goal with |- _ ∧ Forall _ [?r] => by apply (Hone r) end.
Qed.

Lemma apply_items_pending dest_dir its :
  ∀ fs rs,
    item <$> snd (apply_items dest_dir (fs, rs) its)
    = (item <$> rs) ++ filter (λ it, ¬ satisfied it) its
    ∧ (Forall (λ r, action r = if selected (item r) then install else uninstall)
              rs →
       Forall (λ r, action r = if selected (item r) then install else uninstall)
              (snd (apply_items dest_dir (fs, rs) its))).
Proof.
  induction its as [|it its IH]; intros fs rs.
  { by rewrite app_nil_r. }
  rewrite apply_items_cons.
  destruct (apply_item_pending fs dest_dir it) as [Hit Hact].
  destruct (IH (fst (apply_item fs dest_dir it))
               (rs ++ snd (apply_item fs dest_dir it))) as [-> Hall].
  split.
  - rewrite fmap_app, Hit, filter_cons, <-app_assoc.
    by destruct (decide (satisfied it)); case_decide.
  - intros Hrs. apply Hall, Forall_app. done.
Qed.

Lemma apply_categories_pending claude_dir cs :
  ∀ fs rs,
    item <$> snd (apply_categories claude_dir (fs, rs) cs)
    = (item <$> rs)
      ++ filter (λ it, ¬ satisfied it) (concat (items <$> filter known cs))
    ∧ (Forall (λ r, action r = if selected (item r) then install else uninstall)
              rs →
       Forall (λ r, action r = if selected (item r) then install else uninstall)
              (snd (apply_categories claude_dir (fs, rs) cs))).
Proof.
  induction cs as [|c cs IH]; intros fs rs.
  { by rewrite app_nil_r. }
  rewrite apply_categories_cons, filter_cons.
  destruct (decide (known c)) as [Hk|Hk].
  - pose proof Hk as [d Hd]%(dest_dir_of_known claude_dir). rewrite Hd.
    destruct (apply_items_pending d (items c) fs rs) as [H1 H1'].
    destruct (apply_items d (fs, rs) (items c)) as [fs1 rs1]. simpl in *.
    destruct (IH fs1 rs1) as [-> H2]. split.
    + rewrite H1. simpl. by rewrite filter_app, app_assoc.
    + intros Hrs. by apply H2, H1'.
  - destruct (dest_dir_of claude_dir c) as [d|] eqn:Hd; [|apply IH].
    destruct Hk. apply (dest_dir_of_known claude_dir). eauto.
Qed.

Lemma filter_Forall_id {A} (P : A → Prop) `{∀ x, Decision (P x)}
    (l : list A) :
  Forall P l → filter P l = l.
Proof.
  induction 1 as [|x l Hx _ IH]; [done|].
  by rewrite filter_cons, decide_True, IH.
Qed.

Lemma discover_items_known fs source_dir claude_dir cats :
  discover_items fs source_dir claude_dir = Ok cats → filter known cats = cats.
Proof.
  intros Hok. apply filter_Forall_id, Forall_forall. intros c Hc.
  destruct (discover_items_elem _ _ _ _ _ Hok Hc)
    as [(cat & Hcat & Hmd)|Hsk].
  - destruct (discover_md_cases fs source_dir claude_dir cat)
      as [E|(its & _ & _ & _ & E)]; rewrite E in Hmd; [done|].
    injection Hmd as <-. unfold known. simpl. tauto.
  - destruct (discover_skills_cases fs source_dir claude_dir)
      as [(e & E & _)|[E|(its & ds & _ & _ & _ & _ & E)]];
      rewrite E in Hsk; try done.
    injection Hsk as <-. unfold known. simpl. tauto.
Qed.

Lemma refresh_known fs cs : filter known (refresh fs cs) = refresh fs (filter known cs).
Proof.
  unfold refresh. induction cs as [|c cs IH]; [done|].
  rewrite fmap_cons, !filter_cons. simpl.
  destruct (decide (known c)) as [Hk|Hk].
  - rewrite decide_True by done. by rewrite fmap_cons, IH.
  - by rewrite decide_False by done.
Qed.

Lemma settled_all_selected fs c :
  Forall (settled fs) (items c) → all_selected c = all_installed c.
Proof.
  unfold all_selected, all_installed.
  induction 1 as [|it its (Hs & _)%settled_selected _ IH]; [done|].
  simpl. by rewrite IH, Hs.
Qed.

End Pending.

(** X9. [check_status] is idempotent and takes nothing from the status
    the item had: classifying an item again, or an item with any other
    stored status and detail, gives the same item; so does the refresh
    of all categories. *)
Theorem refresh_idempotent (fs : FS) (categories : list Category)
    (it : Item) :
  check_status fs (check_status fs it) = check_status fs it
  ∧ (∀ s e, check_status fs (set_status s e it) = check_status fs it)
  ∧ refresh fs (refresh fs categories) = refresh fs categories.
Proof.
  split_and!.
  - apply check_status_idem.
  - intros s e. unfold check_status. by repeat (case_match; simpl in *).
  - apply refresh_of_settled, refresh_settled.
Qed.

(** X11. Running [apply_changes] again on what it returned changes
    nothing: the file system and the categories stay as they are, and
    the results are exactly one failed "Cannot uninstall" refusal per
    Conflict item of the three handled categories, in order; none when
    there is no Conflict. *)
Theorem apply_changes_again (fs : FS) (claude_dir : path)
    (categories : list Category) fs' cats' results :
  apply_changes fs claude_dir categories = (fs', cats', results) →
  apply_changes fs' claude_dir cats'
  = (fs', cats',
     refusal <$> filter (λ it, status it = CONFLICT)
                   (concat (items <$> filter known cats'))).
Proof.
  unfold apply_changes at 1.
  destruct (apply_categories claude_dir (fs, []) categories) as [fs1 rs].
  intros [= <- <- <-]. unfold apply_changes.
  pose proof (refresh_settled fs1 categories) as Hs.
  rewrite (apply_categories_settled _ _ _ Hs). simpl.
  by rewrite (refresh_of_settled _ _ Hs).
Qed.

Lemma apply_changes_again_witness :
  ∃ cats',
    apply_changes Sample.blocked Sample.claude
      [mkCategory "commands" [Sample.foo NOT_INSTALLED false None]]
    = (Sample.blocked, cats', [])
    ∧ message <$> snd (apply_changes Sample.blocked Sample.claude cats')
      = ["Cannot uninstall: Path exists but is not a symlink: /home/u/.claude/commands/foo.md"].
Proof.
  set (cats' := [mkCategory "commands"
                   [Sample.foo CONFLICT false
                      (Some "Path exists but is not a symlink: /home/u/.claude/commands/foo.md")]]).
  assert (apply_changes Sample.blocked Sample.claude
            [mkCategory "commands" [Sample.foo NOT_INSTALLED false None]]
          = (Sample.blocked, cats', [])) as Ha by (by vm_compute).
  exists cats'. split; [exact Ha|].
  rewrite (apply_changes_again _ _ _ _ _ _ Ha). by vm_compute.
Defined.

(** X12. [apply_changes] right after [discover_items], with no toggle in
    between, changes nothing on disk and leaves the categories as
    discovered; its results are the refusals of the Conflict items. *)
Theorem discover_then_apply (fs : FS) (source_dir claude_dir : path)
    (cats : list Category) :
  discover_items fs source_dir claude_dir = Ok cats →
  apply_changes fs claude_dir cats
  = (fs, cats,
     refusal <$> filter (λ it, status it = CONFLICT) (concat (items <$> cats))).
Proof.
  intros Hok. pose proof (discover_items_settled _ _ _ _ Hok) as Hs.
  unfold apply_changes. rewrite (apply_categories_settled _ _ _ Hs). simpl.
  by rewrite (refresh_of_settled _ _ Hs), (discover_items_known _ _ _ _ Hok).
Qed.

Lemma discover_then_apply_witness :
  ∃ cats,
    discover_items Sample.linked Sample.src Sample.claude = Ok cats
    ∧ apply_changes Sample.linked Sample.claude cats
      = (Sample.linked, cats, []).
Proof.
  destruct (discover_items Sample.linked Sample.src Sample.claude)
    as [cats|] eqn:Hd; [|by vm_compute in Hd].
  exists cats. split; [done|].
  rewrite (discover_then_apply _ _ _ _ Hd). do 2 f_equal.
  vm_compute in Hd. by injection Hd as <-.
Defined.

(** X13. A batch yields exactly one result for every item of the three
    handled categories whose status is not what its selection asks for,
    in the order of the items, whatever succeeds or fails on the way; the
    result is an install for a selected item and an uninstall for an
    unselected one.  Items of a category with another name get none. *)
Theorem one_result_per_pending_item (fs : FS) (claude_dir : path)
    (categories : list Category) :
  item <$> snd (apply_changes fs claude_dir categories)
  = filter (λ it, ¬ satisfied it) (concat (items <$> filter known categories))
  ∧ Forall (λ r, action r = if selected (item r) then install else uninstall)
           (snd (apply_changes fs claude_dir categories)).
Proof.
  unfold apply_changes.
  destruct (apply_categories_pending claude_dir categories fs []) as [H1 H2].
  destruct (apply_categories claude_dir (fs, []) categories) as [fs1 rs].
  simpl in *. split; [done|]. by apply H2.
Qed.

(** X14. For categories as discovery or a refresh leaves them, the two
    aggregates of a category agree: all its items are selected exactly
    when all are installed. *)
Theorem all_selected_is_all_installed (fs : FS) :
  (∀ source_dir claude_dir cats c,
     discover_items fs source_dir claude_dir = Ok cats → c ∈ cats →
     all_selected c = all_installed c)
  ∧ (∀ categories c, c ∈ refresh fs categories →
                     all_selected c = all_installed c).
Proof.
  split.
  - intros source_dir claude_dir cats c Hok Hc.
    apply (settled_all_selected fs).
    by apply (proj1 (Forall_forall _ _)
                (discover_items_settled _ _ _ _ Hok)).
  - intros categories c Hc. apply (settled_all_selected fs).
    by apply (proj1 (Forall_forall _ _) (refresh_settled fs categories)).
Qed.

Lemma all_selected_is_all_installed_witness :
  all_selected (mkCategory "commands"
                  [refresh_item Sample.linked
                     (Sample.foo NOT_INSTALLED false None)])
  = all_installed (mkCategory "commands"
                     [refresh_item Sample.linked
                        (Sample.foo NOT_INSTALLED false None)]).
Proof.
  apply (proj2 (all_selected_is_all_installed Sample.linked)
           [mkCategory "commands" [Sample.foo NOT_INSTALLED false None]]).
  by left.
Defined.

(** ** 17. Names, listings and the selection *)

Section Names.

Implicit Types (s t nm : string).

Lemma string_length_app s t :
  String.length (s +:+ t) = String.length s + String.length t.
Proof. induction s as [|c s IH]; simpl; [done|]. by rewrite IH. Qed.

Lemma substring_0_0 s : String.substring 0 0 s = "".
Proof. by destruct s. Qed.

Lemma substring_app_l s t :
  String.substring 0 (String.length s) (s +:+ t) = s.
Proof.
  induction s as [|c s IH]; simpl; [apply substring_0_0|]. by rewrite IH.
Qed.

Lemma substring_app_r s t m :
  String.substring (String.length s) m (s +:+ t) = String.substring 0 m t.
Proof. induction s as [|c s IH]; simpl; done. Qed.

Lemma substring_full s : String.substring 0 (String.length s) s = s.
Proof. induction s as [|c s IH]; simpl; [done|]. by rewrite IH. Qed.

Lemma substring_split s k :
  k ≤ String.length s →
  s = String.substring 0 k s
      +:+ String.substring k (String.length s - k) s.
Proof.
  revert k. induction s as [|c s IH]; intros [|k] Hk; simpl in *; try done.
  - by rewrite substring_full.
  - change (String c s
            = String c (String.substring 0 k s
                        +:+ String.substring k (String.length s - k) s)).
    f_equal. apply IH. lia.
Qed.

Lemma rfind_dot_md s i :
  rfind_dot (s +:+ ".md") i = Some (i + String.length s).
Proof.
  revert i. induction s as [|c s IH]; intros i; simpl.
  - f_equal. lia.
  - rewrite IH. f_equal. lia.
Qed.

Lemma matches_md_app s : matches_md (s +:+ ".md") = true.
Proof.
  unfold matches_md. rewrite string_length_app. simpl String.length.
  apply andb_true_iff. split; [apply Nat.leb_le; lia|].
  replace (String.length s + 3 - 3) with (String.length s) by lia.
  by rewrite substring_app_r.
Qed.

Lemma matches_md_inv nm : matches_md nm = true → ∃ s, nm = s +:+ ".md".
Proof.
  unfold matches_md. intros [Hn He%String.eqb_eq]%andb_true_iff.
  apply Nat.leb_le in Hn.
  exists (String.substring 0 (String.length nm - 3) nm).
  rewrite <-He.
  pose proof (substring_split nm (String.length nm - 3)) as H.
  replace (String.length nm - (String.length nm - 3)) with 3 in H by lia.
  apply H. lia.
Qed.

Lemma stem_md s : s ≠ "" → stem (s +:+ ".md") = s.
Proof.
  intros Hs. unfold stem. rewrite rfind_dot_md, string_length_app. simpl.
  destruct s as [|c s]; [done|]. simpl String.length.
  replace (0 <? S (String.length s)) with true
    by (symmetry; apply Nat.ltb_lt; lia).
  replace (S (String.length s) <? S (String.length s) + 3 - 1) with true
    by (symmetry; apply Nat.ltb_lt; lia).
  simpl andb. cbv iota.
  exact (substring_app_l (String c s) ".md").
Qed.

Lemma stem_of_md nm :
  matches_md nm = true →
  (nm = ".md" ∧ stem nm = ".md")
  ∨ (stem nm ≠ "" ∧ nm = stem nm +:+ ".md").
Proof.
  intros [s ->]%matches_md_inv. destruct (decide (s = "")) as [->|Hs].
  - by left.
  - right. by rewrite stem_md.
Qed.

End Names.

Section Selection.

Implicit Types (c : Category) (it : Item).

Lemma toggle_item_twice it : toggle_item (toggle_item it) = it.
Proof.
  destruct it. unfold toggle_item, set_selected. simpl.
  by rewrite negb_involutive.
Qed.

Lemma all_selected_Forall c :
  all_selected c = true ↔ Forall (λ it, selected it = true) (items c).
Proof.
  unfold all_selected. rewrite forallb_forall, Forall_forall.
  split; intros H x Hx; apply H; by apply list_elem_of_In.
Qed.

Lemma all_selected_uniform (b : bool) (its : list Item) nm :
  its ≠ [] →
  all_selected (mkCategory nm (set_selected b <$> its)) = b.
Proof.
  intros Hne. unfold all_selected. simpl.
  destruct its as [|it its]; [done|]. destruct b; simpl.
  - induction its as [|x its IH]; simpl; [done|]. apply IH. done.
  - done.
Qed.

End Selection.

Section Listings.

Implicit Types (fs : FS) (d p : path) (n : string) (source_dir claude_dir : path).

Lemma joinpath_inj d n n' : d /: n = d /: n' → n = n'.
Proof. unfold joinpath. by intros [_ ?]%app_inj_tail. Qed.

Lemma joinpath_inj_2 d d' n n' : d /: n = d' /: n' → d = d' ∧ n = n'.
Proof. unfold joinpath. by intros ?%app_inj_tail. Qed.

Lemma is_dir_exists fs p : is_dir fs p = true → path_exists fs p = true.
Proof. unfold is_dir, path_exists. by destruct (stat fs p) as [[| |]|]. Qed.

Lemma is_dir_lstat fs d n :
  is_dir fs (d /: n) = true → is_Some (lstat fs (d /: n)).
Proof.
  unfold is_dir, joinpath. rewrite stat_snoc.
  destruct (lstat fs (d ++ [n])); [eauto|done].
Qed.

(** [os.listdir] yields each name of the directory once. *)
Lemma listdir_spec fs d names :
  listdir fs d = Ok names →
  NoDup names ∧ ∀ n, n ∈ names ↔ is_Some (lstat fs (d /: n)).
Proof.
  unfold listdir. destruct (opendir fs d d) as [q|] eqn:Hq; [|done].
  apply opendir_Ok in Hq as [Hr [es Hes]]. rewrite Hes. intros [= <-].
  split; [apply NoDup_fst_map_to_list|]. intros n.
  unfold joinpath. rewrite lstat_snoc, Hr.
  unfold fs_lookup in *. rewrite lookup_at_app, Hes. simpl.
  rewrite list_elem_of_fmap. split.
  - intros ([n' v] & -> & Hv%elem_of_map_to_list). eauto.
  - intros [v Hv]. exists (n, v). split; [done|].
    by apply elem_of_map_to_list.
Qed.

Lemma listdir_is_dir fs d :
  is_dir fs d = true → ∃ names, listdir fs d = Ok names.
Proof.
  intros Hd. unfold listdir.
  destruct (is_dir_opendir fs d d Hd) as [q Hq]. rewrite Hq.
  apply opendir_Ok in Hq as [_ [es ->]]. eauto.
Qed.

Lemma iterdir_spec fs d ds :
  iterdir fs d = Ok ds →
  NoDup ds ∧ ∀ p, p ∈ ds ↔ ∃ n, p = d /: n ∧ is_Some (lstat fs (d /: n)).
Proof.
  unfold iterdir. destruct (listdir fs d) as [names|] eqn:Hl; [|done].
  intros [= <-]. apply listdir_spec in Hl as [Hnd Hn]. split.
  - apply NoDup_fmap_2; [|done]. intros n n'. apply joinpath_inj.
  - intros p. rewrite list_elem_of_fmap. split.
    + intros (n & -> & Hin). exists n. split; [done|]. by apply Hn.
    + intros (n & -> & Hs). exists n. split; [done|]. by apply Hn.
Qed.

Lemma glob_md_spec fs d :
  NoDup (glob_md fs d)
  ∧ ∀ p, p ∈ glob_md fs d ↔
         ∃ n, p = d /: n ∧ matches_md n = true
              ∧ is_Some (lstat fs (d /: n)).
Proof.
  unfold glob_md. destruct (is_dir fs d) eqn:Hd.
  - destruct (listdir_is_dir fs d Hd) as [names Hl]. rewrite Hl.
    apply listdir_spec in Hl as [Hnd Hn]. split.
    + apply NoDup_fmap_2; [|by apply NoDup_filter].
      intros n n'. apply joinpath_inj.
    + intros p. rewrite list_elem_of_fmap. split.
      * intros (n & -> & [Hm Hin]%list_elem_of_filter). exists n.
        split_and!; try done. by apply Hn.
      * intros (n & -> & Hm & Hs). exists n. split; [done|].
        apply list_elem_of_filter. split; [done|]. by apply Hn.
  - split; [constructor|]. intros p. split; [by intros ?%elem_of_nil|].
    intros (n & -> & _ & Hs). apply lstat_parent_is_dir in Hs. congruence.
Qed.

Lemma sorted_NoDup (l : list path) : NoDup l → NoDup (sorted l).
Proof.
  intros Hl. unfold sorted.
  by rewrite (merge_sort_Permutation path_le l).
Qed.

(** The items of a leaf-file category and of the skills category. *)
Lemma discover_md_items fs source_dir claude_dir cat c :
  discover_md fs source_dir claude_dir cat = [c] →
  cat_name c = cat
  ∧ items c = (λ f, discovered fs (stem (basename f)) cat f
                      (claude_dir /: cat /: basename f))
              <$> sorted (glob_md fs (source_dir /: cat)).
Proof.
  destruct (discover_md_cases fs source_dir claude_dir cat)
    as [E|(its & _ & _ & Hits & E)]; rewrite E; [done|].
  intros [= <-]. by rewrite Hits.
Qed.

Lemma discover_md_found fs source_dir claude_dir cat p :
  p ∈ glob_md fs (source_dir /: cat) →
  ∃ c, discover_md fs source_dir claude_dir cat = [c].
Proof.
  intros Hp. unfold discover_md.
  assert (path_exists fs (source_dir /: cat) = true) as ->.
  { apply is_dir_exists.
    apply (proj2 (glob_md_spec fs _)) in Hp as (n & _ & _ & Hs).
    by apply lstat_parent_is_dir in Hs. }
  apply sorted_elem_of in Hp.
  destruct (sorted (glob_md fs (source_dir /: cat))) as [|x l];
    [by apply elem_of_nil in Hp|].
  rewrite fmap_cons. eauto.
Qed.

Lemma discover_skills_items fs source_dir claude_dir c :
  discover_skills fs source_dir claude_dir = Ok [c] →
  cat_name c = "skills"
  ∧ ∃ ds, iterdir fs (source_dir /: "skills") = Ok ds
     ∧ items c = (λ d, discovered fs (basename d) "skills" d
                         (claude_dir /: "skills" /: basename d))
                 <$> filter (λ d, is_dir fs d
                                  && path_exists fs (d /: "SKILL.md") = true)
                       (sorted ds).
Proof.
  destruct (discover_skills_cases fs source_dir claude_dir)
    as [(e & E & _)|[E|(its & ds & _ & _ & Hi & Hits & E)]];
    rewrite E; try done.
  intros [= <-]. split; [done|]. exists ds. by rewrite Hits.
Qed.

Lemma discover_skills_found fs source_dir claude_dir skills ds p :
  discover_skills fs source_dir claude_dir = Ok skills →
  iterdir fs (source_dir /: "skills") = Ok ds →
  path_exists fs (source_dir /: "skills") = true →
  p ∈ ds → is_dir fs p = true → path_exists fs (p /: "SKILL.md") = true →
  ∃ c, skills = [c].
Proof.
  unfold discover_skills. intros Hs Hi He Hp Hd Hsk.
  rewrite He, Hi in Hs.
  assert (p ∈ filter (λ d, is_dir fs d && path_exists fs (d /: "SKILL.md")
                           = true) (sorted ds)) as Hin.
  { apply list_elem_of_filter. split; [by rewrite Hd, Hsk|].
    by apply sorted_elem_of. }
  destruct (filter _ (sorted ds)) as [|x l]; [by apply elem_of_nil in Hin|].
  rewrite fmap_cons in Hs. injection Hs as <-. eauto.
Qed.

End Listings.

(** X15. Every item [discover_items] returns carries the name of its
    category, comes from an entry [n] of the source subdirectory of that
    category and is destined for the same name [n] below the matching
    subdirectory of the Claude directory.  A skill is a directory holding
    [SKILL.md] and is named [n]; a command or an agent is an entry
    matching [*.md] and is named by the stem of [n], so that [n] is the
    name followed by [.md], but for the file called [.md], whose stem is
    [.md] itself. *)
Theorem discovered_item_paths (fs : FS) (source_dir claude_dir : path)
    (cats : list Category) (c : Category) (it : Item) :
  discover_items fs source_dir claude_dir = Ok cats →
  c ∈ cats → it ∈ items c →
  category it = cat_name c
  ∧ ∃ n,
      source_path it = source_dir /: cat_name c /: n
      ∧ dest_path it = claude_dir /: cat_name c /: n
      ∧ is_Some (lstat fs (source_path it))
      ∧ (cat_name c = "skills" ∧ name it = n
         ∧ is_dir fs (source_path it) = true
         ∧ path_exists fs (source_path it /: "SKILL.md") = true
         ∨ (cat_name c = "commands" ∨ cat_name c = "agents")
           ∧ matches_md n = true ∧ name it = stem n
           ∧ (n = ".md" ∧ name it = ".md"
              ∨ name it ≠ "" ∧ n = name it +:+ ".md")).
Proof.
  intros Hok Hc Hit.
  destruct (discover_items_elem _ _ _ _ _ Hok Hc)
    as [(cat & Hcat & Hmd)|Hsk].
  - apply discover_md_items in Hmd as [Hn Hits]. rewrite Hits in Hit.
    apply list_elem_of_fmap in Hit as (f & -> & Hf).
    rewrite sorted_elem_of in Hf.
    apply (proj2 (glob_md_spec fs _)) in Hf as (n & -> & Hm & Hs).
    rewrite (basename_snoc (source_dir /: cat) n : basename (_ /: n) = n).
    destruct (discovered_fields fs (stem n) cat (source_dir /: cat /: n)
                (claude_dir /: cat /: n))
      as (Hnm & Hct & Hsp & Hdp & _).
    set (it := discovered _ _ _ _ _) in *. clearbody it.
    rewrite Hn, Hsp, Hnm. split; [done|]. exists n.
    split_and!; try done.
    right. split_and!; try done.
    by apply stem_of_md.
  - apply discover_skills_items in Hsk as (Hn & ds & Hi & Hits).
    rewrite Hits in Hit.
    apply list_elem_of_fmap in Hit as (d & -> & [Hd Hin]%list_elem_of_filter).
    apply andb_true_iff in Hd as [Hd Hsk].
    rewrite sorted_elem_of in Hin.
    apply (proj2 (iterdir_spec _ _ _ Hi)) in Hin as (n & -> & Hs).
    rewrite (basename_snoc (source_dir /: "skills") n
             : basename (_ /: n) = n).
    destruct (discovered_fields fs n "skills" (source_dir /: "skills" /: n)
                (claude_dir /: "skills" /: n))
      as (Hnm & Hct & Hsp & Hdp & _).
    set (it := discovered _ _ _ _ _) in *. clearbody it.
    rewrite Hn, Hsp, Hnm. split; [done|]. exists n.
    split_and!; try done.
    left. by split_and!.
Qed.

Lemma discovered_item_paths_witness :
  ∃ cats c it,
    discover_items Sample.fresh Sample.src Sample.claude = Ok cats
    ∧ c ∈ cats ∧ it ∈ items c
    ∧ category it = cat_name c
    ∧ dest_path it = Sample.claude /: cat_name c /: (name it +:+ ".md").
Proof.
  destruct (discover_items Sample.fresh Sample.src Sample.claude)
    as [cats|] eqn:Hd; [|by vm_compute in Hd].
  pose proof Hd as Hd'. vm_compute in Hd'. injection Hd' as <-.
  eexists _, _, _. split; [done|].
  split; [apply list_elem_of_here|]. split; [apply list_elem_of_here|].
  destruct (discovered_item_paths _ _ _ _ _ _ Hd
              (list_elem_of_here _ _) (list_elem_of_here _ _))
    as (Hc & n & _ & Hdp & _ & [(Hn & _)|(_ & _ & _ & [[_ Hn]|[_ ->]])]).
  - done.
  - done.
  - exact (conj Hc Hdp).
Defined.

(** X16. Discovery misses nothing and yields nothing twice: every entry
    of [commands] or [agents] whose name matches [*.md], and every
    directory of [skills] that holds [SKILL.md], is the source of an item
    of the category of that name; and no two items returned, of the same
    or of different categories, have the same destination. *)
Theorem discovery_complete (fs : FS) (source_dir claude_dir : path)
    (cats : list Category) :
  discover_items fs source_dir claude_dir = Ok cats →
  (∀ cat n,
     cat = "commands" ∨ cat = "agents" →
     matches_md n = true → is_Some (lstat fs (source_dir /: cat /: n)) →
     ∃ c it, c ∈ cats ∧ cat_name c = cat ∧ it ∈ items c
             ∧ source_path it = source_dir /: cat /: n)
  ∧ (∀ n,
       is_dir fs (source_dir /: "skills" /: n) = true →
       path_exists fs (source_dir /: "skills" /: n /: "SKILL.md") = true →
       ∃ c it, c ∈ cats ∧ cat_name c = "skills" ∧ it ∈ items c
               ∧ source_path it = source_dir /: "skills" /: n)
  ∧ NoDup (dest_path <$> concat (items <$> cats)).
Proof.
  intros Hok. pose proof Hok as (skills & Hsk & Hcats)%discover_items_Ok.
  split_and!.
  - intros cat n Hcat Hm Hs.
    assert (source_dir /: cat /: n ∈ glob_md fs (source_dir /: cat)) as Hg.
    { apply (proj2 (glob_md_spec fs _)). eauto. }
    destruct (discover_md_found fs source_dir claude_dir cat _ Hg) as [c Hc].
    pose proof Hc as [Hn Hits]%discover_md_items.
    exists c, (discovered fs (stem (basename (source_dir /: cat /: n))) cat
                 (source_dir /: cat /: n)
                 (claude_dir /: cat /: basename (source_dir /: cat /: n))).
    split; [|split; [exact Hn|split]].
    + rewrite Hcats. destruct Hcat as [-> | ->]; rewrite Hc.
      * apply elem_of_app. left. apply list_elem_of_here.
      * apply elem_of_app. right. apply elem_of_app. right.
        apply list_elem_of_here.
    + rewrite Hits. apply list_elem_of_fmap.
      exists (source_dir /: cat /: n). split; [reflexivity|].
      rewrite sorted_elem_of. exact Hg.
    + apply discovered_fields.
  - intros n Hd Hmd.
    pose proof (is_dir_lstat _ _ _ Hd) as Hs.
    pose proof (lstat_parent_is_dir _ _ _ Hs) as Hsd.
    pose proof (is_dir_exists _ _ Hsd) as He.
    destruct (discover_skills_cases fs source_dir claude_dir)
      as [(e & E & _)|[E|(its & ds & _ & _ & Hi & Hits & E)]].
    + by rewrite E in Hsk.
    + destruct (listdir_is_dir fs _ Hsd) as [names Hl].
      assert (iterdir fs (source_dir /: "skills")
              = Ok (joinpath (source_dir /: "skills") <$> names)) as Hi.
      { unfold iterdir. by rewrite Hl. }
      assert (source_dir /: "skills" /: n
              ∈ joinpath (source_dir /: "skills") <$> names) as Hin.
      { apply (proj2 (iterdir_spec _ _ _ Hi)). eauto. }
      destruct (discover_skills_found _ _ _ _ _ _ E Hi He Hin Hd Hmd)
        as [c Hc]. done.
    + rewrite E in Hsk. injection Hsk as <-.
      exists (mkCategory "skills" its),
        (discovered fs (basename (source_dir /: "skills" /: n)) "skills"
           (source_dir /: "skills" /: n)
           (claude_dir /: "skills"
            /: basename (source_dir /: "skills" /: n))).
      split; [|split; [reflexivity|split]].
      * rewrite Hcats. apply elem_of_app. right. apply elem_of_app. left.
        apply list_elem_of_here.
      * simpl. rewrite Hits. apply list_elem_of_fmap.
        exists (source_dir /: "skills" /: n). split; [reflexivity|].
        apply list_elem_of_filter.
        split; [by rewrite Hd, Hmd|]. rewrite sorted_elem_of.
        apply (proj2 (iterdir_spec _ _ _ Hi)). eauto.
      * apply discovered_fields.
  - assert (∀ cat, (cat = "commands" ∨ cat = "agents") →
              NoDup (dest_path <$> concat
                       (items <$> discover_md fs source_dir claude_dir cat))
              ∧ ∀ x, x ∈ dest_path <$> concat
                       (items <$> discover_md fs source_dir claude_dir cat) →
                     ∃ n, x = claude_dir /: cat /: n) as Hmd.
    { intros cat _.
      destruct (discover_md_cases fs source_dir claude_dir cat)
        as [E|(its & _ & _ & Hits & E)]; rewrite E.
      { split; [constructor|]. by intros x ?%elem_of_nil. }
      simpl. rewrite app_nil_r, Hits, <-list_fmap_compose. split.
      - apply NoDup_fmap_2_strong; [|apply sorted_NoDup, glob_md_spec].
        intros p p' Hp Hp'. unfold compose.
        rewrite !(proj1 (proj2 (proj2 (proj2
                   (discovered_fields fs _ _ _ _))))).
        rewrite sorted_elem_of in Hp, Hp'.
        apply glob_md_names in Hp as [n ->].
        apply glob_md_names in Hp' as [n' ->].
        unfold joinpath. rewrite !basename_snoc.
        by intros [_ ->]%app_inj_tail.
      - intros x (p & -> & _)%list_elem_of_fmap. unfold compose.
        rewrite (proj1 (proj2 (proj2 (proj2
                  (discovered_fields fs _ _ _ _))))). eauto. }
    assert (NoDup (dest_path <$> concat (items <$> skills))
            ∧ ∀ x, x ∈ dest_path <$> concat (items <$> skills) →
                   ∃ n, x = claude_dir /: "skills" /: n) as Hskl.
    { destruct (discover_skills_cases fs source_dir claude_dir)
        as [(e & E & _)|[E|(its & ds & _ & _ & Hi & Hits & E)]];
        rewrite E in Hsk; try done; injection Hsk as <-.
      { split; [constructor|]. by intros x ?%elem_of_nil. }
      simpl. rewrite app_nil_r, Hits, <-list_fmap_compose. split.
      - apply NoDup_fmap_2_strong;
          [|apply NoDup_filter, sorted_NoDup, (iterdir_spec _ _ _ Hi)].
        intros p p' [_ Hp]%list_elem_of_filter [_ Hp']%list_elem_of_filter.
        unfold compose.
        rewrite !(proj1 (proj2 (proj2 (proj2
                   (discovered_fields fs _ _ _ _))))).
        rewrite sorted_elem_of in Hp, Hp'.
        apply (iterdir_names _ _ _ _ Hi) in Hp as [n ->].
        apply (iterdir_names _ _ _ _ Hi) in Hp' as [n' ->].
        unfold joinpath. rewrite !basename_snoc.
        by intros [_ ->]%app_inj_tail.
      - intros x (p & -> & _)%list_elem_of_fmap. unfold compose.
        rewrite (proj1 (proj2 (proj2 (proj2
                  (discovered_fields fs _ _ _ _))))). eauto. }
    destruct (Hmd "commands" ltac:(by left)) as [Hc1 Hc2].
    destruct (Hmd "agents" ltac:(by right)) as [Ha1 Ha2].
    destruct Hskl as [Hs1 Hs2].
    rewrite Hcats, !fmap_app, !concat_app, !fmap_app.
    apply NoDup_app. split_and!; [done| |].
    + intros x (n & ->)%Hc2 [(n' & E)%Hs2|(n' & E)%Ha2]%elem_of_app.
      * apply joinpath_inj_2 in E as [E _].
        by apply joinpath_inj in E.
      * apply joinpath_inj_2 in E as [E _].
        by apply joinpath_inj in E.
    + apply NoDup_app. split_and!; [done| |done].
      intros x (n & ->)%Hs2 (n' & E)%Ha2.
      apply joinpath_inj_2 in E as [E _].
      by apply joinpath_inj in E.
Qed.

Lemma discovery_complete_witness :
  ∃ cats,
    discover_items Sample.fresh Sample.src Sample.claude = Ok cats
    ∧ (∃ c it, c ∈ cats ∧ cat_name c = "commands" ∧ it ∈ items c
               ∧ source_path it = Sample.src /: "commands" /: "foo.md")
    ∧ NoDup (dest_path <$> concat (items <$> cats)).
Proof.
  destruct (discover_items Sample.fresh Sample.src Sample.claude)
    as [cats|] eqn:Hd; [|by vm_compute in Hd].
  exists cats. split; [done|].
  destruct (discovery_complete _ _ _ _ Hd) as (Hmd & _ & Hnd).
  split; [|done]. apply Hmd.
  - by left.
  - by vm_compute.
  - vm_compute. eauto.
Defined.

(** X17. Toggling the node of a category that has items leaves its
    name and everything but the selection of its items as they were,
    gives every item the selection [not all_selected], so that
    [all_selected] flips and the other categories are untouched; toggling
    the node of an item flips the selection of that item only, and doing
    it twice restores [self.categories]. *)
Theorem toggle_node_spec (categories : list Category) (i : nat)
    (c : Category) :
  categories !! i = Some c → items c ≠ [] →
  let cats' := _toggle_node categories (category_node i) in
  (∃ c', cats' !! i = Some c'
         ∧ cat_name c' = cat_name c
         ∧ all_selected c' = negb (all_selected c)
         ∧ Forall2 (λ it it', it' = set_selected (negb (all_selected c)) it)
             (items c) (items c'))
  ∧ (∀ k, k ≠ i → cats' !! k = categories !! k)
  ∧ (∀ j, _toggle_node (_toggle_node categories (item_node i j))
            (item_node i j) = categories)
  ∧ (∀ j it, items c !! j = Some it →
       ∃ c', _toggle_node categories (item_node i j) !! i = Some c'
             ∧ items c' = <[j := set_selected (negb (selected it)) it]>
                            (items c)).
Proof.
  intros Hi Hne. simpl. split_and!.
  - exists (toggle_category c). rewrite list_lookup_alter_eq, Hi.
    split_and!; try done.
    + unfold toggle_category. by apply all_selected_uniform.
    + unfold toggle_category. simpl. apply Forall2_fmap_r.
      by apply Forall_Forall2_diag, Forall_true.
  - intros k Hk. by apply list_lookup_alter_ne.
  - intros j. rewrite list_alter_alter_eq. apply list_alter_id.
    intros [nm its]. unfold compose. simpl. f_equal.
    rewrite list_alter_alter_eq. apply list_alter_id. intros it.
    apply toggle_item_twice.
  - intros j it Hj. eexists. rewrite list_lookup_alter_eq, Hi. simpl.
    split; [done|]. simpl. rewrite list_insert_alter.
    apply list_eq. intros k. destruct (decide (k = j)) as [->|Hk].
    + by rewrite !list_lookup_alter_eq, Hj.
    + by rewrite !list_lookup_alter_ne.
Qed.

Lemma toggle_node_spec_witness :
  _toggle_node
    [mkCategory "commands"
       [Sample.foo INSTALLED true None; Sample.foo NOT_INSTALLED false None]]
    (category_node 0) !! 1 = None
  ∧ ∃ c', _toggle_node
            [mkCategory "commands"
               [Sample.foo INSTALLED true None;
                Sample.foo NOT_INSTALLED false None]]
            (category_node 0) !! 0 = Some c'
          ∧ all_selected c' = true.
Proof.
  destruct (toggle_node_spec
              [mkCategory "commands"
                 [Sample.foo INSTALLED true None;
                  Sample.foo NOT_INSTALLED false None]] 0
              (mkCategory "commands"
                 [Sample.foo INSTALLED true None;
                  Sample.foo NOT_INSTALLED false None]))
    as ((c' & Hc' & _ & Hall & _) & Hk & _).
  - done.
  - done.
  - split; [by rewrite Hk|]. exists c'. split; [done|]. by rewrite Hall.
Defined.
